(** * AutoPopulate.populate (datajoint/autopopulate.py)

    A shallow embedding of the [populate] method of the [AutoPopulate]
    mixin, together with the properties its specification states.

    The class body defines [populate] twice; Python keeps the second
    binding, the one with the bounded retry loop, and that is the
    method embedded here.

    The method talks to collaborators whose code lives in other
    modules: the connection ([self.conn]), the target relation
    ([key in self.target]), the relational algebra behind
    [populate_relation] and the abstract callback [_make_tuples].
    They are fields of the record [collaborators]; every call into
    them may change the world and may raise.

    Effects are threaded by a small monad: a computation takes the
    world, and gives back an outcome (a value or a raised exception),
    the new world, and the list of collaborator calls it made, in
    order.  Logging ([logger.info]) has no effect on control flow and
    is left out; [print(error)] is kept, since an exception raised
    while the error is printed leaves the handler. *)

From Stdlib Require Import List String Bool Arith Lia.
Import ListNotations.

(** ** Exceptions and outcomes *)

(** What can be raised through [populate].  [Conflict] is the payload
    of a [TransactionError] (it carries the resolution action and the
    culprit), [UserExn] is whatever else the collaborators raise:
    [UserError] for an instance of [Exception], [BaseExceptionOnly]
    for an instance of [BaseException] that is not an instance of
    [Exception] ([KeyboardInterrupt], [SystemExit] and the like). *)
Inductive exn (Conflict UserExn : Type) : Type :=
| AssertionError
| AttributeError
| DataJointError (msg : string)
| TransactionError (tr_err : Conflict)
| UserError (u : UserExn)
| BaseExceptionOnly (u : UserExn).

Arguments AssertionError {Conflict UserExn}.
Arguments AttributeError {Conflict UserExn}.
Arguments DataJointError {Conflict UserExn} msg.
Arguments TransactionError {Conflict UserExn} tr_err.
Arguments UserError {Conflict UserExn} u.
Arguments BaseExceptionOnly {Conflict UserExn} u.

Definition is_TransactionError {C U : Type} (e : exn C U) : bool :=
  match e with
  | TransactionError _ => true
  | _ => false
  end.

(** [isinstance(e, Exception)]: what [except Exception] catches. *)
Definition is_Exception {C U : Type} (e : exn C U) : bool :=
  match e with
  | BaseExceptionOnly _ => false
  | _ => true
  end.

Inductive outcome (E A : Type) : Type :=
| Ret (a : A)
| Raise (e : E).

Arguments Ret {E A} a.
Arguments Raise {E A} e.

(** ** Calls into the collaborators, as they appear in a run *)

Inductive event (Key Conflict : Type) : Type :=
| EvFetch                              (* iterating unpopulated.project() *)
| EvStart                              (* entering conn.transaction() *)
| EvContains (key : Key) (found : bool) (* key in self.target *)
| EvMake (key : Key)                   (* self._make_tuples(dict(key)) *)
| EvCommit                             (* leaving the with block normally *)
| EvCancel                             (* leaving the with block by an exception *)
| EvResolve (tr_err : Conflict)        (* tr_err.resolve() *)
| EvPrint.                             (* print(error) *)

Arguments EvFetch {Key Conflict}.
Arguments EvStart {Key Conflict}.
Arguments EvContains {Key Conflict} key found.
Arguments EvMake {Key Conflict} key.
Arguments EvCommit {Key Conflict}.
Arguments EvCancel {Key Conflict}.
Arguments EvResolve {Key Conflict} tr_err.
Arguments EvPrint {Key Conflict}.

(** The value of the property [self.populate_relation]: a relational
    operand, whose rows are read from the world when it is iterated,
    or any other object. *)
Inductive pyvalue (Key World : Type) : Type :=
| RelationalOperand (fetch : World -> list Key)
| OtherObject.

Arguments RelationalOperand {Key World} fetch.
Arguments OtherObject {Key World}.

(** ** The collaborators *)

Record collaborators (Key World Conflict UserExn : Type) : Type := {
  (* isinstance(self, Relation) *)
  is_Relation : bool;
  (* str(self.__class__) *)
  class_repr : string;
  (* the abstract property populate_relation *)
  populate_relation : pyvalue Key World;
  (* key in self.target *)
  contains : World -> Key -> bool;
  (* the abstract method _make_tuples *)
  _make_tuples : Key -> World -> outcome (exn Conflict UserExn) unit * World;
  (* self.conn: the three steps of a transaction *)
  _start_transaction : World -> outcome (exn Conflict UserExn) unit * World;
  _commit_transaction : World -> outcome (exn Conflict UserExn) unit * World;
  _cancel_transaction : World -> outcome (exn Conflict UserExn) unit * World;
  (* TransactionError.resolve *)
  resolve : Conflict -> World -> outcome (exn Conflict UserExn) unit * World;
  (* print(error): it writes to the standard output, which is not part
     of the world, and it may raise, as str(error) may *)
  print : exn Conflict UserExn -> World -> outcome (exn Conflict UserExn) unit
}.

Arguments is_Relation {Key World Conflict UserExn}.
Arguments class_repr {Key World Conflict UserExn}.
Arguments populate_relation {Key World Conflict UserExn}.
Arguments contains {Key World Conflict UserExn}.
Arguments _make_tuples {Key World Conflict UserExn}.
Arguments _start_transaction {Key World Conflict UserExn}.
Arguments _commit_transaction {Key World Conflict UserExn}.
Arguments _cancel_transaction {Key World Conflict UserExn}.
Arguments resolve {Key World Conflict UserExn}.
Arguments print {Key World Conflict UserExn}.

(** An element of the returned error list: [(key, error)]. *)
Definition error_record (Key Conflict UserExn : Type) : Type :=
  (Key * exn Conflict UserExn)%type.

Section Populate.

Context {Key World Conflict UserExn : Type}.
Variable self : collaborators Key World Conflict UserExn.

Local Abbreviation exn := (exn Conflict UserExn).
Local Abbreviation event := (event Key Conflict).
Local Abbreviation result A := (outcome exn A * World * list event)%type.
Local Abbreviation error_record := (error_record Key Conflict UserExn).

(** *** The monad *)

Definition M (A : Type) : Type := World -> result A.

Definition ret {A} (a : A) : M A := fun w => (Ret a, w, []).

Definition raise {A} (e : exn) : M A := fun w => (Raise e, w, []).

Definition bind {A B} (m : M A) (f : A -> M B) : M B :=
  fun w =>
    let '(r, w1, t1) := m w in
    match r with
    | Ret a => let '(r2, w2, t2) := f a w1 in (r2, w2, t1 ++ t2)
    | Raise e => (Raise e, w1, t1)
    end.

(** [try: m / except Exception as e: handler e / else: orelse a]. *)
Definition try_except {A B} (m : M A) (handler : exn -> M B)
           (orelse : A -> M B) : M B :=
  fun w =>
    let '(r, w1, t1) := m w in
    let '(r2, w2, t2) :=
      match r with
      | Ret a => orelse a w1
      | Raise e => handler e w1
      end in
    (r2, w2, t1 ++ t2).

(** A call into a collaborator, recorded in the trace. *)
Definition call {A} (ev : event) (f : World -> outcome exn A * World) : M A :=
  fun w => let '(r, w1) := f w in (r, w1, [ev]).

Notation "x <- m ;; k" := (bind m (fun x => k))
  (at level 61, m at next level, right associativity).
Notation "m ;;; k" := (bind m (fun _ => k))
  (at level 61, right associativity).

(** *** The pieces of [populate] *)

Definition max_attempts : nat := 10.

Definition mixin_message : string :=
  "Autopopulate is a mixin for Relation and must therefore subclass Relation".

Definition invalid_message : string := "Invalid populate_relation value".

(** ['%s._make_tuples failed after multiple attempts, giving up'
     % self.__class__] *)
Definition give_up_message : string :=
  (class_repr self ++ "._make_tuples failed after multiple attempts, giving up")%string.

(** [key in self.target]: a read of the world. *)
Definition key_in_target (key : Key) : M bool :=
  fun w => (Ret (contains self w key), w, [EvContains key (contains self w key)]).

(** Modelled from the spec: the context manager [self.conn.transaction()],
    whose code is in the connection module.  It opens a transaction,
    runs the block, commits when the block returns and cancels, then
    raises the same exception again, when the block raises, whatever
    it raises. *)
Definition transaction {A} (body : M A) : M A :=
  call EvStart (_start_transaction self) ;;;
  try_except body
    (fun e => call EvCancel (_cancel_transaction self) ;;; raise e)
    (fun a => call EvCommit (_commit_transaction self) ;;; ret a).

(** One pass of the body of the [for attempts] loop, up to [break]. *)
Definition attempt (key : Key) : M unit :=
  transaction
    (found <- key_in_target key ;;
     if negb found then call (EvMake key) (_make_tuples self key) else ret tt).

(** [for attempts in range(n): ... else: raise DataJointError(...)]. *)
Fixpoint attempts_loop (key : Key) (n : nat) : M unit :=
  match n with
  | 0 => raise (DataJointError give_up_message)
  | S n' =>
      try_except (attempt key)
        (fun e =>
           match e with
           | TransactionError tr_err =>
               call (EvResolve tr_err) (resolve self tr_err) ;;;
               attempts_loop key n'
           | _ => raise e
           end)
        (fun _ => ret tt)
  end.

(** [print(error)]: the world is read, not changed. *)
Definition print_error (error : exn) : M unit :=
  fun w => (print self error w, w, [EvPrint]).

(** [for key in unpopulated.project(): ...] followed by
    [return error_list].  The handler is [except Exception]: what is
    not an instance of [Exception] goes through it; and what
    [print(error)] raises leaves the handler, and the loop. *)
Fixpoint for_keys (suppress_errors : bool) (keys : list Key)
         (error_list : option (list error_record))
  : M (option (list error_record)) :=
  match keys with
  | [] => ret error_list
  | key :: rest =>
      try_except (attempts_loop key max_attempts)
        (fun error =>
           if negb (is_Exception error) then raise error
           else if negb suppress_errors then raise error
           else
             print_error error ;;;
             match error_list with
             | Some l =>
                 for_keys suppress_errors rest (Some (l ++ [(key, error)]))
             | None => raise AttributeError
             end)
        (fun _ => for_keys suppress_errors rest error_list)
  end.

(** Modelled from the spec: the relational algebra behind
    [(self.populate_relation - self.target) & restriction] and
    [project()], whose code is in the relational operand module.  The
    work list is the eligible keys that are not in the target and
    pass the restriction; [None] restricts nothing. *)
Definition unpopulated (fetch : World -> list Key)
           (restriction : option (Key -> bool)) (w : World) : list Key :=
  filter (fun key => match restriction with
                     | Some keep => keep key
                     | None => true
                     end)
         (filter (fun key => negb (contains self w key)) (fetch w)).

Definition project (fetch : World -> list Key)
           (restriction : option (Key -> bool)) : M (list Key) :=
  fun w => (Ret (unpopulated fetch restriction w), w, [EvFetch]).

Definition populate (restriction : option (Key -> bool))
           (suppress_errors reserve_jobs : bool)
  : M (option (list error_record)) :=
  if reserve_jobs then raise AssertionError
  else
    let error_list := if suppress_errors then Some [] else None in
    if negb (is_Relation self) then raise (DataJointError mixin_message)
    else
      match populate_relation self with
      | OtherObject => raise (DataJointError invalid_message)
      | RelationalOperand fetch =>
          keys <- project fetch restriction ;;
          for_keys suppress_errors keys error_list
      end.

End Populate.

(** ** A concrete stage

    A small storage with transactions, used to run [populate] on
    concrete inputs.  Keys are numbers.  The rows written inside an
    open transaction are seen by that transaction only; committing
    makes them the stored rows and cancelling drops them.  Opening a
    transaction while another is open commits the open one first.
    What the callback does for a key is given by a plan. *)
Module Stage.

Inductive behaviour : Type :=
| Inserts                 (* writes the row of the key *)
| Silent                  (* returns without writing a row *)
| Fails (msg : string)    (* writes the row, then raises *)
| Conflicts               (* always meets a transaction conflict *)
| Contended.              (* meets a conflict while the storage is contended *)

Record world : Type := {
  rows : list nat;
  opened : option (list nat);
  contention : nat
}.

Definition visible (w : world) : list nat :=
  match opened w with
  | Some l => l
  | None => rows w
  end.

Definition has (w : world) (key : nat) : bool :=
  existsb (Nat.eqb key) (visible w).

Definition insert (key : nat) (w : world) : world :=
  match opened w with
  | Some l => {| rows := rows w; opened := Some (key :: l); contention := contention w |}
  | None => {| rows := key :: rows w; opened := None; contention := contention w |}
  end.

Definition error : Type := exn string string.

Definition value_error : error := UserError "ValueError"%string.

Definition start (w : world) : outcome error unit * world :=
  (Ret tt, {| rows := visible w; opened := Some (visible w); contention := contention w |}).

Definition commit (w : world) : outcome error unit * world :=
  (Ret tt, {| rows := visible w; opened := None; contention := contention w |}).

Definition cancel (w : world) : outcome error unit * world :=
  (Ret tt, {| rows := rows w; opened := None; contention := contention w |}).

Definition settle (culprit : string) (w : world) : outcome error unit * world :=
  (Ret tt, {| rows := rows w; opened := opened w; contention := pred (contention w) |}).

Definition make (plan : nat -> behaviour) (key : nat) (w : world)
  : outcome error unit * world :=
  match plan key with
  | Inserts => (Ret tt, insert key w)
  | Silent => (Ret tt, w)
  | Fails msg => (Raise (UserError msg), insert key w)
  | Conflicts => (Raise (TransactionError "insert"%string), w)
  | Contended =>
      match contention w with
      | 0 => (Ret tt, insert key w)
      | S _ => (Raise (TransactionError "insert"%string), w)
      end
  end.

Definition stage (plan : nat -> behaviour) (relation : pyvalue nat world)
           (subclasses_Relation : bool) : collaborators nat world string string :=
  {| is_Relation := subclasses_Relation;
     class_repr := "<class 'Stage'>";
     populate_relation := relation;
     contains := has;
     _make_tuples := make plan;
     _start_transaction := start;
     _commit_transaction := commit;
     _cancel_transaction := cancel;
     resolve := settle;
     print := fun _ _ => Ret tt |}.

Definition eligible (keys : list nat) : pyvalue nat world :=
  RelationalOperand (fun _ => keys).

Definition empty : world := {| rows := []; opened := None; contention := 0 |}.

(** Key 2 fails, key 5 always conflicts, key 6 conflicts while the
    storage is contended, key 7 writes nothing; the others insert. *)
Definition plan (key : nat) : behaviour :=
  match key with
  | 2 => Fails "ValueError"
  | 5 => Conflicts
  | 6 => Contended
  | 7 => Silent
  | 9 => Conflicts
  | _ => Inserts
  end.

(** The same plan, but key 7 inserts like the others: every callback
    that returns has written the row of its key. *)
Definition tidy_plan (key : nat) : behaviour :=
  match key with
  | 2 => Fails "ValueError"
  | 5 => Conflicts
  | 6 => Contended
  | _ => Inserts
  end.

End Stage.


Definition run_stage := Stage.stage Stage.plan.
Definition tidy_stage := Stage.stage Stage.tidy_plan.

(** ** What a trace says *)

Definition is_start {K C : Type} (ev : event K C) : bool :=
  match ev with
  | EvStart => true
  | _ => false
  end.

Definition is_make {K C : Type} (ev : event K C) : bool :=
  match ev with
  | EvMake _ => true
  | _ => false
  end.

(** The number of transactions opened, that is, of attempts. *)
Definition transactions_opened {K C : Type} (t : list (event K C)) : nat :=
  List.length (filter is_start t).

(** The number of calls of [_make_tuples]. *)
Definition callback_calls {K C : Type} (t : list (event K C)) : nat :=
  List.length (filter is_make t).

(** The key an event is about, if it is about one. *)
Definition event_key {K C : Type} (ev : event K C) : option K :=
  match ev with
  | EvContains key _ => Some key
  | EvMake key => Some key
  | _ => None
  end.

Definition is_close {K C : Type} (ev : event K C) : bool :=
  match ev with
  | EvCommit => true
  | EvCancel => true
  | _ => false
  end.

(** The number of transactions committed or cancelled. *)
Definition transactions_closed {K C : Type} (t : list (event K C)) : nat :=
  List.length (filter is_close t).


(** One attempt, as it shows in a run: the opening of a transaction,
    then no other opening, at most one call of the callback and at
    most one commit or cancellation, every check and call being for
    the key. *)
Definition round_of {K C : Type} (key : K) (r : list (event K C)) : Prop :=
  exists rest,
    r = EvStart :: rest /\
    transactions_opened rest = 0 /\
    callback_calls rest <= 1 /\
    transactions_closed rest <= 1 /\
    forall ev k, In ev rest -> event_key ev = Some k -> k = key.

(** The part of a run that is for one key: its attempts, one after
    the other, and whether its error was printed after them. *)
Record segment (K C : Type) : Type := {
  seg_key : K;
  seg_rounds : list (list (event K C));
  seg_printed : bool
}.

Arguments seg_key {K C}.
Arguments seg_rounds {K C}.
Arguments seg_printed {K C}.

Definition segment_trace {K C : Type} (seg : segment K C) : list (event K C) :=
  List.concat (seg_rounds seg) ++ (if seg_printed seg then [EvPrint] else []).

(** ** The first definition of [populate]

    The class body binds [populate] twice.  This is the first binding,
    which the second replaces: it drives the three steps of a
    transaction itself, does not retry, and starts by rolling back
    whatever transaction is open. *)
Module Shadowed.

Section Populate.

Context {Key World Conflict UserExn : Type}.
Variable self : collaborators Key World Conflict UserExn.

Local Abbreviation exn := (exn Conflict UserExn).
Local Abbreviation M := (@M Key World Conflict UserExn).
Local Abbreviation error_record := (error_record Key Conflict UserExn).

Notation "x <- m ;; k" := (bind m (fun x => k))
  (at level 61, m at next level, right associativity).
Notation "m ;;; k" := (bind m (fun _ => k))
  (at level 61, right associativity).

(** The body of [for key in unpopulated.project()]; it gives the
    error list as the body leaves it.  The handler is
    [except Exception]: what is not an instance of [Exception] goes
    through it, with no cancellation; and what [print(error)] raises
    leaves the handler. *)
Definition populate_key (suppress_errors : bool) (key : Key)
           (error_list : option (list error_record))
  : M (option (list error_record)) :=
  call EvStart (_start_transaction self) ;;;
  found <- key_in_target self key ;;
  if found then
    call EvCancel (_cancel_transaction self) ;;; ret error_list
  else
    try_except (call (EvMake key) (_make_tuples self key))
      (fun error =>
         if negb (is_Exception error) then raise error
         else
           call EvCancel (_cancel_transaction self) ;;;
           if negb suppress_errors then raise error
           else
             print_error self error ;;;
             match error_list with
             | Some l => ret (Some (l ++ [(key, error)]))
             | None => raise AttributeError
             end)
      (fun _ => call EvCommit (_commit_transaction self) ;;; ret error_list).

Fixpoint for_keys (suppress_errors : bool) (keys : list Key)
         (error_list : option (list error_record))
  : M (option (list error_record)) :=
  match keys with
  | [] => ret error_list
  | key :: rest =>
      error_list' <- populate_key suppress_errors key error_list ;;
      for_keys suppress_errors rest error_list'
  end.

Definition populate (restriction : option (Key -> bool))
           (suppress_errors reserve_jobs : bool)
  : M (option (list error_record)) :=
  if reserve_jobs then raise AssertionError
  else
    let error_list := if suppress_errors then Some [] else None in
    match populate_relation self with
    | OtherObject => raise (DataJointError invalid_message)
    | RelationalOperand fetch =>
        call EvCancel (_cancel_transaction self) ;;;
        keys <- project self fetch restriction ;;
        for_keys suppress_errors keys error_list
    end.

End Populate.

End Shadowed.

(** ** Properties of [populate] *)

Section Properties.

Context {Key World Conflict UserExn : Type}.
Variable self : collaborators Key World Conflict UserExn.

Local Abbreviation exn := (exn Conflict UserExn).
Local Abbreviation event := (event Key Conflict).
Local Abbreviation error_record := (error_record Key Conflict UserExn).

Ltac unfold_monad :=
  unfold attempt, transaction, key_in_target, bind, try_except, call, ret, raise.

(** *** Conditions on the collaborators *)

(** The callback of [key] meets a transaction conflict whenever it is
    called in a world of [I]: the transaction opens, the key is not in
    the target, the callback raises a transaction error, the
    cancellation and the resolution return, and the world is in [I]
    again. *)
Definition always_conflicts (I : World -> Prop) (key : Key) : Prop :=
  forall w, I w ->
  exists w1 tr_err w2 w3 w4,
    _start_transaction self w = (Ret tt, w1) /\
    contains self w1 key = false /\
    _make_tuples self key w1 = (Raise (TransactionError tr_err), w2) /\
    _cancel_transaction self w2 = (Ret tt, w3) /\
    resolve self tr_err w3 = (Ret tt, w4) /\
    I w4.

(** The contract of the callback and of the commit: a callback that
    returns has put its key in the target, and a commit that returns
    keeps the keys of the target. *)
Definition callback_inserts : Prop :=
  forall key w1 w2,
    _make_tuples self key w1 = (Ret tt, w2) -> contains self w2 key = true.

Definition commit_keeps : Prop :=
  forall key w1 w2,
    contains self w1 key = true ->
    _commit_transaction self w1 = (Ret tt, w2) -> contains self w2 key = true.

(** The work on one key never takes a key out of the target. *)
Definition target_grows : Prop :=
  forall key key' w1 r w2 t,
    contains self w1 key = true ->
    attempts_loop self key' max_attempts w1 = (r, w2, t) ->
    contains self w2 key = true.


(** The ways an attempt can go. *)
Inductive attempt_path (key : Key) (w : World)
  : outcome exn unit -> World -> list event -> Prop :=
| PathNoStart e w1 :
    _start_transaction self w = (Raise e, w1) ->
    attempt_path key w (Raise e) w1 [EvStart]
| PathSkip w1 r w2 :
    _start_transaction self w = (Ret tt, w1) ->
    contains self w1 key = true ->
    _commit_transaction self w1 = (r, w2) ->
    attempt_path key w r w2 [EvStart; EvContains key true; EvCommit]
| PathCommit w1 w2 r w3 :
    _start_transaction self w = (Ret tt, w1) ->
    contains self w1 key = false ->
    _make_tuples self key w1 = (Ret tt, w2) ->
    _commit_transaction self w2 = (r, w3) ->
    attempt_path key w r w3 [EvStart; EvContains key false; EvMake key; EvCommit]
| PathCancel w1 e w2 r w3 :
    _start_transaction self w = (Ret tt, w1) ->
    contains self w1 key = false ->
    _make_tuples self key w1 = (Raise e, w2) ->
    _cancel_transaction self w2 = (r, w3) ->
    attempt_path key w (match r with Ret _ => Raise e | Raise e' => Raise e' end)
                 w3 [EvStart; EvContains key false; EvMake key; EvCancel].

(** *** One attempt, path by path *)

Lemma attempt_start_raises (key : Key) (w w1 : World) (e : exn) :
  _start_transaction self w = (Raise e, w1) ->
  attempt self key w = (Raise e, w1, [EvStart]).
Proof.
  intros Hs. unfold_monad. rewrite Hs. reflexivity.
Qed.

Lemma attempt_skip (key : Key) (w w1 w2 : World) (r : outcome exn unit) :
  _start_transaction self w = (Ret tt, w1) ->
  contains self w1 key = true ->
  _commit_transaction self w1 = (r, w2) ->
  attempt self key w = (r, w2, [EvStart; EvContains key true; EvCommit]).
Proof.
  intros Hs Hc Hcm. unfold_monad. rewrite Hs, Hc. simpl. rewrite Hcm.
  destruct r as [[]|e]; reflexivity.
Qed.

Lemma attempt_commit (key : Key) (w w1 w2 w3 : World) (r : outcome exn unit) :
  _start_transaction self w = (Ret tt, w1) ->
  contains self w1 key = false ->
  _make_tuples self key w1 = (Ret tt, w2) ->
  _commit_transaction self w2 = (r, w3) ->
  attempt self key w =
    (r, w3, [EvStart; EvContains key false; EvMake key; EvCommit]).
Proof.
  intros Hs Hc Hm Hcm. unfold_monad. rewrite Hs, Hc. simpl. rewrite Hm, Hcm.
  destruct r as [[]|e]; reflexivity.
Qed.

Lemma attempt_cancel (key : Key) (w w1 w2 w3 : World) (e : exn)
      (r : outcome exn unit) :
  _start_transaction self w = (Ret tt, w1) ->
  contains self w1 key = false ->
  _make_tuples self key w1 = (Raise e, w2) ->
  _cancel_transaction self w2 = (r, w3) ->
  attempt self key w =
    (match r with Ret _ => Raise e | Raise e' => Raise e' end, w3,
     [EvStart; EvContains key false; EvMake key; EvCancel]).
Proof.
  intros Hs Hc Hm Hcn. unfold_monad. rewrite Hs, Hc. simpl. rewrite Hm, Hcn.
  destruct r as [[]|e']; reflexivity.
Qed.

Lemma attempt_paths (key : Key) (w : World) :
  exists r w' t, attempt self key w = (r, w', t) /\ attempt_path key w r w' t.
Proof.
  destruct (_start_transaction self w) as [[[]|e] w1] eqn:Hs.
  - destruct (contains self w1 key) eqn:Hc.
    + destruct (_commit_transaction self w1) as [r w2] eqn:Hcm.
      do 3 eexists. split; [eapply attempt_skip; eassumption|].
      eapply PathSkip; eassumption.
    + destruct (_make_tuples self key w1) as [[[]|e] w2] eqn:Hm.
      * destruct (_commit_transaction self w2) as [r w3] eqn:Hcm.
        do 3 eexists. split; [eapply attempt_commit; eassumption|].
        eapply PathCommit; eassumption.
      * destruct (_cancel_transaction self w2) as [r w3] eqn:Hcn.
        do 3 eexists. split; [eapply attempt_cancel; eassumption|].
        eapply PathCancel; eassumption.
  - do 3 eexists. split; [eapply attempt_start_raises; eassumption|].
    eapply PathNoStart; eassumption.
Qed.

Lemma attempt_inv (key : Key) (w w' : World) (r : outcome exn unit)
      (t : list event) :
  attempt self key w = (r, w', t) -> attempt_path key w r w' t.
Proof.
  intros H. destruct (attempt_paths key w) as (r0 & w0 & t0 & E & P).
  rewrite E in H. inversion H; subst. exact P.
Qed.

(** *** The retry loop, step by step *)

Lemma attempts_loop_zero (key : Key) (w : World) :
  attempts_loop self key 0 w = (Raise (DataJointError (give_up_message self)), w, []).
Proof. reflexivity. Qed.

Lemma attempts_loop_done (key : Key) (n : nat) (w w1 : World) (t1 : list event) :
  attempt self key w = (Ret tt, w1, t1) ->
  attempts_loop self key (S n) w = (Ret tt, w1, t1).
Proof.
  intros H. cbn [attempts_loop]. unfold try_except. rewrite H.
  unfold ret. rewrite app_nil_r. reflexivity.
Qed.

Lemma attempts_loop_terminal (key : Key) (n : nat) (w w1 : World) (e : exn)
      (t1 : list event) :
  attempt self key w = (Raise e, w1, t1) ->
  is_TransactionError e = false ->
  attempts_loop self key (S n) w = (Raise e, w1, t1).
Proof.
  intros H He. cbn [attempts_loop]. unfold try_except. rewrite H.
  destruct e; try discriminate; unfold raise; rewrite app_nil_r; reflexivity.
Qed.

Lemma attempts_loop_retry (key : Key) (n : nat) (w w1 w2 : World)
      (tr_err : Conflict) (t1 : list event) :
  attempt self key w = (Raise (TransactionError tr_err), w1, t1) ->
  resolve self tr_err w1 = (Ret tt, w2) ->
  attempts_loop self key (S n) w =
    (let '(r, w3, t3) := attempts_loop self key n w2 in
     (r, w3, t1 ++ EvResolve tr_err :: t3)).
Proof.
  intros H Hr. cbn [attempts_loop]. unfold try_except. rewrite H.
  unfold bind, call. rewrite Hr.
  destruct (attempts_loop self key n w2) as [[r w3] t3]. reflexivity.
Qed.

Lemma attempts_loop_resolve_raises (key : Key) (n : nat) (w w1 w2 : World)
      (tr_err : Conflict) (e : exn) (t1 : list event) :
  attempt self key w = (Raise (TransactionError tr_err), w1, t1) ->
  resolve self tr_err w1 = (Raise e, w2) ->
  attempts_loop self key (S n) w = (Raise e, w2, t1 ++ [EvResolve tr_err]).
Proof.
  intros H Hr. cbn [attempts_loop]. unfold try_except. rewrite H.
  unfold bind, call. rewrite Hr. reflexivity.
Qed.

(** *** The loop over the work list, step by step *)

Lemma for_keys_ok (suppress_errors : bool) (key : Key) (rest : list Key)
      (error_list : option (list error_record))
      (w w1 : World) (t1 : list event) :
  attempts_loop self key max_attempts w = (Ret tt, w1, t1) ->
  for_keys self suppress_errors (key :: rest) error_list w =
    (let '(r, w2, t2) := for_keys self suppress_errors rest error_list w1 in
     (r, w2, t1 ++ t2)).
Proof.
  intros H. cbn [for_keys]. unfold try_except. rewrite H.
  destruct (for_keys self suppress_errors rest error_list w1) as [[r w2] t2].
  reflexivity.
Qed.

Lemma for_keys_raise (key : Key) (rest : list Key)
      (error_list : option (list error_record))
      (w w1 : World) (e : exn) (t1 : list event) :
  attempts_loop self key max_attempts w = (Raise e, w1, t1) ->
  for_keys self false (key :: rest) error_list w = (Raise e, w1, t1).
Proof.
  intros H. cbn [for_keys]. unfold try_except. rewrite H.
  destruct (is_Exception e); cbn [negb]; unfold raise;
    rewrite app_nil_r; reflexivity.
Qed.

(** What is not an instance of [Exception] goes through the handler,
    in both modes. *)
Lemma for_keys_through (suppress_errors : bool) (key : Key) (rest : list Key)
      (error_list : option (list error_record))
      (w w1 : World) (e : exn) (t1 : list event) :
  attempts_loop self key max_attempts w = (Raise e, w1, t1) ->
  is_Exception e = false ->
  for_keys self suppress_errors (key :: rest) error_list w = (Raise e, w1, t1).
Proof.
  intros H He. cbn [for_keys]. unfold try_except. rewrite H, He.
  cbn [negb]. unfold raise. rewrite app_nil_r. reflexivity.
Qed.

Lemma for_keys_record (key : Key) (rest : list Key)
      (l : list error_record)
      (w w1 : World) (e : exn) (t1 : list event) :
  attempts_loop self key max_attempts w = (Raise e, w1, t1) ->
  is_Exception e = true ->
  print self e w1 = Ret tt ->
  for_keys self true (key :: rest) (Some l) w =
    (let '(r, w2, t2) := for_keys self true rest (Some (l ++ [(key, e)])) w1 in
     (r, w2, t1 ++ EvPrint :: t2)).
Proof.
  intros H He Hp. cbn [for_keys]. unfold try_except. rewrite H, He.
  cbn [negb]. unfold bind, print_error. rewrite Hp.
  destruct (for_keys self true rest (Some (l ++ [(key, e)])) w1) as [[r w2] t2].
  reflexivity.
Qed.

Lemma for_keys_print_raises (key : Key) (rest : list Key)
      (error_list : option (list error_record))
      (w w1 : World) (e e' : exn) (t1 : list event) :
  attempts_loop self key max_attempts w = (Raise e, w1, t1) ->
  is_Exception e = true ->
  print self e w1 = Raise e' ->
  for_keys self true (key :: rest) error_list w =
    (Raise e', w1, t1 ++ [EvPrint]).
Proof.
  intros H He Hp. cbn [for_keys]. unfold try_except. rewrite H, He.
  cbn [negb]. unfold bind, print_error. rewrite Hp. reflexivity.
Qed.

Lemma for_keys_no_list (key : Key) (rest : list Key) (w w1 : World) (e : exn)
      (t1 : list event) :
  attempts_loop self key max_attempts w = (Raise e, w1, t1) ->
  is_Exception e = true ->
  print self e w1 = Ret tt ->
  for_keys self true (key :: rest) None w =
    (Raise AttributeError, w1, t1 ++ [EvPrint]).
Proof.
  intros H He Hp. cbn [for_keys]. unfold try_except. rewrite H, He.
  cbn [negb]. unfold bind, print_error, raise. rewrite Hp. reflexivity.
Qed.

(** The first turn of the loop, case by case. *)
Lemma for_keys_cons_inv (suppress_errors : bool) (key : Key) (rest : list Key)
      (error_list : option (list error_record)) (w w' : World)
      (r : outcome exn (option (list error_record))) (t : list event) :
  for_keys self suppress_errors (key :: rest) error_list w = (r, w', t) ->
  exists r1 w1 t1,
    attempts_loop self key max_attempts w = (r1, w1, t1) /\
    ((r1 = Ret tt /\
      exists t2, for_keys self suppress_errors rest error_list w1 = (r, w', t2) /\
                 t = t1 ++ t2) \/
     (exists e, r1 = Raise e /\
                (suppress_errors = false \/ is_Exception e = false) /\
                r = Raise e /\ w' = w1 /\ t = t1) \/
     (exists e l t2,
         r1 = Raise e /\ suppress_errors = true /\ is_Exception e = true /\
         print self e w1 = Ret tt /\ error_list = Some l /\
         for_keys self true rest (Some (l ++ [(key, e)])) w1 = (r, w', t2) /\
         t = t1 ++ EvPrint :: t2) \/
     (exists e e',
         r1 = Raise e /\ suppress_errors = true /\ is_Exception e = true /\
         print self e w1 = Raise e' /\
         r = Raise e' /\ w' = w1 /\ t = t1 ++ [EvPrint]) \/
     (exists e, r1 = Raise e /\ suppress_errors = true /\ is_Exception e = true /\
                print self e w1 = Ret tt /\ error_list = None /\
                r = Raise AttributeError /\ w' = w1 /\ t = t1 ++ [EvPrint])).
Proof.
  intros H.
  destruct (attempts_loop self key max_attempts w) as [[r1 w1] t1] eqn:E.
  exists r1, w1, t1. split; [reflexivity|].
  destruct r1 as [[]|e].
  - erewrite for_keys_ok in H by exact E.
    destruct (for_keys self suppress_errors rest error_list w1)
      as [[r2 w2] t2] eqn:E2.
    inversion H; subst. left. split; [reflexivity|].
    exists t2. split; reflexivity.
  - right. destruct (is_Exception e) eqn:He.
    + destruct suppress_errors.
      * destruct (print self e w1) as [[]|e'] eqn:Hp.
        -- destruct error_list as [l|].
           ++ erewrite for_keys_record in H by eassumption.
              destruct (for_keys self true rest (Some (l ++ [(key, e)])) w1)
                as [[r2 w2] t2] eqn:E2.
              inversion H; subst. right. left.
              exists e, l, t2. repeat split; auto.
           ++ erewrite for_keys_no_list in H by eassumption.
              inversion H; subst. right. right. right.
              exists e. repeat split; auto.
        -- erewrite for_keys_print_raises in H by eassumption.
           inversion H; subst. right. right. left.
           exists e, e'. repeat split; auto.
      * erewrite for_keys_raise in H by exact E.
        inversion H; subst. left. exists e. repeat split; auto.
    + erewrite for_keys_through in H by eassumption.
      inversion H; subst. left. exists e. repeat split; auto.
Qed.

Ltac for_keys_cases H :=
  let r1 := fresh "r1" in
  let w1 := fresh "w1" in
  let t1 := fresh "t1" in
  let E := fresh "E" in
  apply for_keys_cons_inv in H;
  destruct H as (r1 & w1 & t1 & E & H).


(** With suppression a loop that returns gives a list that extends the
    one it was given by records of keys of the work list. *)
Lemma for_keys_suppressing_returns (keys : list Key) :
  forall (l : list error_record) (w w' : World)
         (res : option (list error_record)) (t : list event),
    for_keys self true keys (Some l) w = (Ret res, w', t) ->
    exists errs, res = Some (l ++ errs) /\ incl (map fst errs) keys.
Proof.
  induction keys as [|key rest IH]; intros l w w' res t H.
  - inversion H; subst. exists []. rewrite app_nil_r.
    split; [reflexivity|]. intros x [].
  - apply for_keys_cons_inv in H. destruct H as (r1 & w1 & t1 & E & H).
    destruct H as [(_ & t2 & E2 & _)|[(e & _ & _ & Hr & _)|
                   [(e & l0 & t2 & _ & _ & _ & _ & Hl & E2 & _)|
                    [(e & e' & _ & _ & _ & _ & Hr & _)|
                     (e & _ & _ & _ & _ & _ & Hr & _)]]]];
      try discriminate.
    + destruct (IH _ _ _ _ _ E2) as (errs & -> & Hin).
      exists errs. split; [reflexivity|]. intros x Hx. right. apply Hin, Hx.
    + inversion Hl; subst l0.
      destruct (IH _ _ _ _ _ E2) as (errs & -> & Hin).
      exists ((key, e) :: errs). rewrite <- app_assoc.
      split; [reflexivity|].
      intros x [Hx|Hx]; [left; exact Hx|right; apply Hin, Hx].
Qed.

(** With suppression, what leaves the loop is not an instance of
    [Exception], or was raised while an error was printed. *)
Lemma for_keys_suppressing_raises (keys : list Key) :
  forall (l : list error_record) (w w' : World) (e : exn) (t : list event),
    for_keys self true keys (Some l) w = (Raise e, w', t) ->
    is_Exception e = false \/
    exists e0 t0, t = t0 ++ [EvPrint] /\ print self e0 w' = Raise e.
Proof.
  induction keys as [|key rest IH]; intros l w w' e t H.
  - discriminate.
  - apply for_keys_cons_inv in H. destruct H as (r1 & w1 & t1 & E & H).
    destruct H as [(_ & t2 & E2 & ->)|[(e1 & _ & [Hs|He] & Hr & _)|
                   [(e1 & l0 & t2 & _ & _ & _ & _ & Hl & E2 & ->)|
                    [(e1 & e' & _ & _ & _ & Hp & Hr & -> & ->)|
                     (e1 & _ & _ & _ & _ & Hl & _)]]]];
      try discriminate.
    + destruct (IH _ _ _ _ _ E2) as [He|(e0 & t0 & -> & Hp)];
        [left; exact He|right].
      exists e0, (t1 ++ t0). split; [apply app_assoc|exact Hp].
    + inversion Hr; subst. left. exact He.
    + inversion Hl; subst l0.
      destruct (IH _ _ _ _ _ E2) as [He|(e0 & t0 & -> & Hp)];
        [left; exact He|right].
      exists e0, (t1 ++ EvPrint :: t0). split; [|exact Hp].
      rewrite <- app_assoc. reflexivity.
    + inversion Hr; subst. right. exists e1, t1. split; [reflexivity|exact Hp].
Qed.

(** *** The guards in front of the loop *)

(** C10: with [reserve_jobs] true, [populate] raises the assertion
    error at once: the world is untouched and no collaborator has been
    called, so the work list has not been read and no transaction has
    been opened. *)
Theorem populate_reserve_jobs_asserts
        (restriction : option (Key -> bool)) (suppress_errors : bool) (w : World) :
  populate self restriction suppress_errors true w = (Raise AssertionError, w, []).
Proof. reflexivity. Qed.

(** C8: in a call with [reserve_jobs] false, when [populate_relation]
    is not a relational operand, [populate] raises a data-joint error
    before it calls any collaborator: the work list is not read, no
    transaction is opened, no key is processed and the world is
    untouched.  The message is "Invalid populate_relation value", or,
    when [self] is not even a relation, that of the check on [self],
    which comes first. *)
Theorem populate_invalid_relation_raises_first
        (restriction : option (Key -> bool)) (suppress_errors : bool)
        (w : World) :
  populate_relation self = OtherObject ->
  populate self restriction suppress_errors false w =
    (Raise (DataJointError (if is_Relation self then invalid_message
                            else mixin_message)),
     w, []).
Proof.
  intros H. unfold populate. rewrite H.
  destruct (is_Relation self); reflexivity.
Qed.


(** *** One attempt and the membership check *)

(** C4: in every attempt whose transaction opens, the membership of
    the key is read first thing inside the scope, from the world the
    opening left, and the scope is closed afterwards.  When the key is
    found, the callback is not called: the transaction is released at
    once, and if the release returns the attempt succeeds and ends the
    retry loop for the key without an error. *)
Theorem attempt_rechecks_inside_transaction (key : Key) (w w1 : World) :
  _start_transaction self w = (Ret tt, w1) ->
  (forall r w' t,
      attempt self key w = (r, w', t) ->
      (contains self w1 key = true /\
       t = [EvStart; EvContains key true; EvCommit]) \/
      (contains self w1 key = false /\
       (t = [EvStart; EvContains key false; EvMake key; EvCommit] \/
        t = [EvStart; EvContains key false; EvMake key; EvCancel]))) /\
  (contains self w1 key = true ->
   forall r w2,
     _commit_transaction self w1 = (r, w2) ->
     attempt self key w = (r, w2, [EvStart; EvContains key true; EvCommit]) /\
     callback_calls [@EvStart Key Conflict; EvContains key true; EvCommit] = 0 /\
     (r = Ret tt ->
      forall n,
        attempts_loop self key (S n) w =
          (Ret tt, w2, [EvStart; EvContains key true; EvCommit]))).
Proof.
  intros Hs. split.
  - intros r w' t H. apply attempt_inv in H.
    inversion H; subst; rewrite Hs in *;
      match goal with
      | E : (_, _) = (_, _) |- _ => inversion E; subst
      end.
    + left. split; [assumption|reflexivity].
    + right. split; [assumption|]. left. reflexivity.
    + right. split; [assumption|]. right. reflexivity.
  - intros Hc r w2 Hcm.
    assert (E : attempt self key w = (r, w2, [EvStart; EvContains key true; EvCommit]))
      by (eapply attempt_skip; eassumption).
    split; [exact E|]. split; [reflexivity|].
    intros -> n. apply attempts_loop_done. exact E.
Qed.

(** *** Conflicts *)









(** The retry loop opens at most as many transactions as its bound. *)
Lemma attempts_loop_bounded (key : Key) (n : nat) :
  forall (w w' : World) (r : outcome exn unit) (t : list event),
    attempts_loop self key n w = (r, w', t) ->
    transactions_opened t <= n.
Proof.
  assert (Hone : forall w w' r t,
             attempt self key w = (r, w', t) -> transactions_opened t = 1)
    by (intros w w' r t H; apply attempt_inv in H;
        inversion H; subst; reflexivity).
  assert (Happ : forall t1 t2 : list event,
             transactions_opened (t1 ++ t2) =
             transactions_opened t1 + transactions_opened t2)
    by (intros t1 t2; unfold transactions_opened;
        rewrite filter_app, length_app; reflexivity).
  induction n as [|n IH]; intros w w' r t H.
  - rewrite attempts_loop_zero in H. inversion H; subst. apply le_n.
  - destruct (attempt self key w) as [[r1 w1] t1] eqn:E.
    pose proof (Hone _ _ _ _ E) as H1.
    destruct r1 as [[]|e].
    + erewrite attempts_loop_done in H by exact E. inversion H; subst. lia.
    + destruct (is_TransactionError e) eqn:He.
      * destruct e as [| | |c1| |]; try discriminate.
        destruct (resolve self c1 w1) as [[[]|e'] w2] eqn:Hr.
        -- erewrite attempts_loop_retry in H by eassumption.
           destruct (attempts_loop self key n w2) as [[r3 w3] t3] eqn:E3.
           inversion H; subst. apply IH in E3.
           rewrite Happ. change (EvResolve c1 :: t3) with ([EvResolve c1] ++ t3).
           rewrite Happ. cbn. lia.
        -- erewrite attempts_loop_resolve_raises in H by eassumption.
           inversion H; subst. rewrite Happ. cbn. lia.
      * erewrite attempts_loop_terminal in H by eassumption.
        inversion H; subst. lia.
Qed.

Lemma attempts_loop_always_conflicts (I : World -> Prop) (key : Key) :
  always_conflicts I key ->
  forall (n : nat) (w : World),
    I w ->
    exists w' t,
      attempts_loop self key n w =
        (Raise (DataJointError (give_up_message self)), w', t) /\
      transactions_opened t = n /\ callback_calls t = n.
Proof.
  intros HI. induction n as [|n IH]; intros w Hw.
  - exists w, []. rewrite attempts_loop_zero. repeat split.
  - destruct (HI w Hw) as (w1 & c & w2 & w3 & w4 & Hs & Hc & Hm & Hcn & Hr & Hw4).
    destruct (IH w4 Hw4) as (w' & t & E & Ho & Hcalls).
    pose proof (attempt_cancel key _ _ _ _ _ _ Hs Hc Hm Hcn) as Ea. cbn iota in Ea.
    exists w'. eexists. erewrite attempts_loop_retry by eassumption. rewrite E.
    split; [reflexivity|].
    unfold transactions_opened, callback_calls in *. cbn. rewrite Ho, Hcalls.
    split; reflexivity.
Qed.

(** C2, as amended: [populate] makes at most [max_attempts] = 10
    attempts on a key, whatever happens.  For a key whose callback
    meets a transaction conflict at every attempt, if every
    cancellation and every resolution action returns, it makes exactly
    ten attempts (ten transactions opened, ten calls of the callback),
    and then fails the key with the data-joint error whose message is
    the class of [self] followed by "._make_tuples failed after
    multiple attempts, giving up"; without suppression that error ends
    [populate].  The message is built from the class only: it names
    neither the key nor the number of attempts. *)
Theorem give_up_after_max_attempts
        (I : World -> Prop) (key : Key) (rest : list Key)
        (error_list : option (list error_record)) (w : World) :
  (forall w0 r w' t,
      attempts_loop self key max_attempts w0 = (r, w', t) ->
      transactions_opened t <= 10) /\
  (I w ->
   always_conflicts I key ->
   exists w' t,
     attempts_loop self key max_attempts w =
       (Raise (DataJointError
                 (class_repr self ++
                  "._make_tuples failed after multiple attempts, giving up")%string),
        w', t) /\
     transactions_opened t = 10 /\
     callback_calls t = 10 /\
     for_keys self false (key :: rest) error_list w =
       (Raise (DataJointError
                 (class_repr self ++
                  "._make_tuples failed after multiple attempts, giving up")%string),
        w', t)).
Proof.
  split.
  - intros w0 r w' t H. apply attempts_loop_bounded in H. exact H.
  - intros Hw HI.
    destruct (attempts_loop_always_conflicts I key HI max_attempts w Hw)
      as (w' & t & E & Ho & Hc).
    exists w', t. repeat split; try assumption.
    eapply for_keys_raise. exact E.
Qed.

(** *** Failure without suppression *)

(** A retry loop that returns ends with a commit. *)
Lemma attempts_loop_returns_commit (key : Key) (n : nat) :
  forall (w w' : World) (t : list event),
    attempts_loop self key n w = (Ret tt, w', t) ->
    exists t0, t = t0 ++ [EvCommit].
Proof.
  induction n as [|n IH]; intros w w' t H.
  - rewrite attempts_loop_zero in H. discriminate.
  - destruct (attempt self key w) as [[[[]|e] w1] t1] eqn:E.
    + erewrite attempts_loop_done in H by exact E. inversion H; subst.
      apply attempt_inv in E. inversion E; subst.
      * exists [EvStart; EvContains key true]. reflexivity.
      * exists [EvStart; EvContains key false; EvMake key]. reflexivity.
      * match goal with
        | E0 : match ?r with Ret _ => _ | Raise _ => _ end = Ret tt |- _ =>
            destruct r; discriminate
        end.
    + destruct (is_TransactionError e) eqn:He.
      * destruct e as [| | |c1| |]; try discriminate.
        destruct (resolve self c1 w1) as [[[]|e'] w2] eqn:Hr.
        -- erewrite attempts_loop_retry in H by eassumption.
           destruct (attempts_loop self key n w2) as [[r3 w3] t3] eqn:E3.
           inversion H; subst. destruct (IH _ _ _ E3) as [t0 ->].
           exists (t1 ++ EvResolve c1 :: t0).
           rewrite <- app_assoc. reflexivity.
        -- erewrite attempts_loop_resolve_raises in H by eassumption.
           discriminate.
      * erewrite attempts_loop_terminal in H by eassumption. discriminate.
Qed.

(** The events of the work on a key are about that key only. *)
Lemma attempt_events (key : Key) (w w' : World) (r : outcome exn unit)
      (t : list event) :
  attempt self key w = (r, w', t) ->
  forall ev key', In ev t -> event_key ev = Some key' -> key' = key.
Proof.
  intros H ev key' Hin Hev. apply attempt_inv in H.
  inversion H; subst; cbn in Hin;
    repeat (destruct Hin as [<-|Hin]; [cbn in Hev; congruence|]);
    destruct Hin.
Qed.

Lemma attempts_loop_events (key : Key) (n : nat) :
  forall (w w' : World) (r : outcome exn unit) (t : list event),
    attempts_loop self key n w = (r, w', t) ->
    forall ev key', In ev t -> event_key ev = Some key' -> key' = key.
Proof.
  induction n as [|n IH]; intros w w' r t H ev key' Hin Hev.
  - rewrite attempts_loop_zero in H. inversion H; subst. destruct Hin.
  - destruct (attempt self key w) as [[r1 w1] t1] eqn:E.
    pose proof (attempt_events _ _ _ _ _ E) as Hone.
    destruct r1 as [[]|e].
    + erewrite attempts_loop_done in H by exact E. inversion H; subst.
      eapply Hone; eassumption.
    + destruct (is_TransactionError e) eqn:He.
      * destruct e as [| | |c1| |]; try discriminate.
        destruct (resolve self c1 w1) as [[[]|e'] w2] eqn:Hr.
        -- erewrite attempts_loop_retry in H by eassumption.
           destruct (attempts_loop self key n w2) as [[r3 w3] t3] eqn:E3.
           inversion H; subst. apply in_app_or in Hin.
           destruct Hin as [Hin|[<-|Hin]].
           ++ eapply Hone; eassumption.
           ++ discriminate.
           ++ eapply IH; eassumption.
        -- erewrite attempts_loop_resolve_raises in H by eassumption.
           inversion H; subst. apply in_app_or in Hin.
           destruct Hin as [Hin|[<-|[]]].
           ++ eapply Hone; eassumption.
           ++ discriminate.
      * erewrite attempts_loop_terminal in H by eassumption.
        inversion H; subst. eapply Hone; eassumption.
Qed.

(** C3: on the work list [k1, k2, k3], when the work on [k1] completes
    and the callback raises an error that is not a transaction error
    for [k2], and errors are not suppressed, [populate] raises that
    very error.  The trace shows the whole run: the work on [k1],
    which ends with a commit, then the transaction of [k2], cancelled,
    and nothing after it.  Nothing is cancelled after the commit of
    [k1] but the transaction of [k2], and no event is about a key
    other than [k1] and [k2]: nothing is called for [k3]. *)
Theorem populate_aborts_at_first_failure
        (fetch : World -> list Key) (restriction : option (Key -> bool))
        (k1 k2 k3 : Key) (w a b1 b2 b3 : World) (t1 : list event) (e : exn) :
  is_Relation self = true ->
  populate_relation self = RelationalOperand fetch ->
  unpopulated self fetch restriction w = [k1; k2; k3] ->
  attempts_loop self k1 max_attempts w = (Ret tt, a, t1) ->
  _start_transaction self a = (Ret tt, b1) ->
  contains self b1 k2 = false ->
  _make_tuples self k2 b1 = (Raise e, b2) ->
  is_TransactionError e = false ->
  _cancel_transaction self b2 = (Ret tt, b3) ->
  populate self restriction false false w =
    (Raise e, b3,
     EvFetch :: t1 ++ [EvStart; EvContains k2 false; EvMake k2; EvCancel]) /\
  (exists t0, t1 = t0 ++ [EvCommit]) /\
  (forall ev key,
      In ev (EvFetch :: t1 ++ [EvStart; EvContains k2 false; EvMake k2; EvCancel]) ->
      event_key ev = Some key -> key = k1 \/ key = k2).
Proof.
  intros Hrel Hpr Hkeys E1 Hs2 Hc2 Hm2 He Hcn2.
  pose proof (attempt_cancel k2 _ _ _ _ _ _ Hs2 Hc2 Hm2 Hcn2) as E2. cbn iota in E2.
  split; [|split].
  - unfold populate. rewrite Hrel, Hpr. cbn [negb].
    unfold bind, project. rewrite Hkeys.
    erewrite for_keys_ok by exact E1.
    erewrite for_keys_raise by (apply attempts_loop_terminal; [exact E2|exact He]).
    reflexivity.
  - eapply attempts_loop_returns_commit. exact E1.
  - intros ev key [<-|Hin] Hev; [discriminate|].
    apply in_app_or in Hin. destruct Hin as [Hin|Hin].
    + left. eapply attempts_loop_events; eassumption.
    + right. eapply attempt_events; eassumption.
Qed.

(** *** Accounting for the keys of the work list *)

Section Accounting.

(** [Done w key]: the work for [key] is done in world [w].  It holds
    once the retry loop of the key has returned, and the retry loop of
    any key keeps it. *)
Variable Done : World -> Key -> Prop.

Hypothesis Done_established :
  forall key w w' t,
    attempts_loop self key max_attempts w = (Ret tt, w', t) -> Done w' key.

Hypothesis Done_stable :
  forall key key' w r w' t,
    Done w key ->
    attempts_loop self key' max_attempts w = (r, w', t) -> Done w' key.

Lemma for_keys_stable (key : Key) (suppress_errors : bool) (keys : list Key) :
  forall (error_list : option (list error_record)) (w w' : World)
         (r : outcome exn (option (list error_record))) (t : list event),
    Done w key ->
    for_keys self suppress_errors keys error_list w = (r, w', t) ->
    Done w' key.
Proof.
  induction keys as [|k rest IH]; intros error_list w w' r t HD H.
  - inversion H; subst. exact HD.
  - apply for_keys_cons_inv in H. destruct H as (r1 & w1 & t1 & E & H).
    pose proof (Done_stable _ _ _ _ _ _ HD E) as HD1.
    destruct H as [(_ & t2 & E2 & _)|[(e & _ & _ & _ & -> & _)|
                   [(e & l & t2 & _ & -> & _ & _ & _ & E2 & _)|
                    [(e & e' & _ & _ & _ & _ & _ & -> & _)|
                     (e & _ & _ & _ & _ & _ & _ & -> & _)]]]].
    + eapply IH; eassumption.
    + exact HD1.
    + eapply IH; eassumption.
    + exact HD1.
    + exact HD1.
Qed.

Lemma for_keys_suppressing_accounts (keys : list Key) :
  forall (l : list error_record) (w w' : World)
         (res : option (list error_record)) (t : list event),
    for_keys self true keys (Some l) w = (Ret res, w', t) ->
    exists errs,
      res = Some (l ++ errs) /\
      incl (map fst errs) keys /\
      (NoDup keys -> NoDup (map fst errs)) /\
      (forall key, In key keys -> Done w' key \/ In key (map fst errs)).
Proof.
  induction keys as [|k rest IH]; intros l w w' res t H.
  - inversion H; subst. exists []. rewrite app_nil_r. split; [reflexivity|].
    split; [intros x []|]. split; [intros _; constructor|]. intros key [].
  - apply for_keys_cons_inv in H. destruct H as (r1 & w1 & t1 & E & H).
    destruct H as [(-> & t2 & E2 & _)|[(e & _ & _ & Hr & _)|
                   [(e & l0 & t2 & _ & _ & _ & _ & Hl & E2 & _)|
                    [(e & e' & _ & _ & _ & _ & Hr & _)|
                     (e & _ & _ & _ & _ & _ & Hr & _)]]]];
      try discriminate.
    + destruct (IH _ _ _ _ _ E2) as (errs & -> & Hin & Hnd & Hacc).
      exists errs. split; [reflexivity|].
      split; [intros x Hx; right; apply Hin, Hx|].
      split; [intros Hk; apply Hnd; inversion Hk; assumption|].
      intros key [<-|Hkey].
      * left. eapply for_keys_stable; [|exact E2].
        eapply Done_established. exact E.
      * apply Hacc, Hkey.
    + inversion Hl; subst l0.
      destruct (IH _ _ _ _ _ E2) as (errs & -> & Hin & Hnd & Hacc).
      exists ((k, e) :: errs). rewrite <- app_assoc.
      split; [reflexivity|].
      split; [intros x [Hx|Hx]; [left; exact Hx|right; apply Hin, Hx]|].
      split.
      * intros Hk. inversion Hk; subst. cbn [map fst]. constructor.
        -- intros Hx. apply Hin in Hx. contradiction.
        -- apply Hnd. assumption.
      * intros key [<-|Hkey].
        -- right. left. reflexivity.
        -- destruct (Hacc key Hkey) as [HD|Hx]; [left; exact HD|right; right; exact Hx].
Qed.

Lemma for_keys_strict_accounts (keys : list Key) :
  forall (error_list r : option (list error_record)) (w w' : World)
         (t : list event),
    for_keys self false keys error_list w = (Ret r, w', t) ->
    forall key, In key keys -> Done w' key.
Proof.
  induction keys as [|k rest IH]; intros error_list r w w' t H key Hkey.
  - destruct Hkey.
  - apply for_keys_cons_inv in H. destruct H as (r1 & w1 & t1 & E & H).
    destruct H as [(-> & t2 & E2 & _)|[(e & _ & _ & Hr & _)|
                   [(e & l0 & t2 & _ & Hs & _)|
                    [(e & e' & _ & Hs & _)|
                     (e & _ & Hs & _)]]]];
      try discriminate.
    destruct Hkey as [<-|Hkey].
    + eapply for_keys_stable; [|exact E2]. eapply Done_established. exact E.
    + eapply IH; eassumption.
Qed.

End Accounting.

(** The retry loop returns only out of an attempt that returned. *)
Lemma attempts_loop_returns_inv (key : Key) (n : nat) :
  forall (w w' : World) (t : list event),
    attempts_loop self key n w = (Ret tt, w', t) ->
    exists w0 t0, attempt self key w0 = (Ret tt, w', t0).
Proof.
  induction n as [|n IH]; intros w w' t H.
  - rewrite attempts_loop_zero in H. discriminate.
  - destruct (attempt self key w) as [[[[]|e] w1] t1] eqn:E.
    + erewrite attempts_loop_done in H by exact E.
      inversion H; subst. exists w, t. exact E.
    + destruct (is_TransactionError e) eqn:He.
      * destruct e as [| | |c1| |]; try discriminate.
        destruct (resolve self c1 w1) as [[[]|e'] w2] eqn:Hr.
        -- erewrite attempts_loop_retry in H by eassumption.
           destruct (attempts_loop self key n w2) as [[r3 w3] t3] eqn:E3.
           inversion H; subst. eapply IH. exact E3.
        -- erewrite attempts_loop_resolve_raises in H by eassumption.
           discriminate.
      * erewrite attempts_loop_terminal in H by eassumption. discriminate.
Qed.

Lemma attempts_loop_returns_in_target (key : Key) (n : nat) (w w' : World)
      (t : list event) :
  callback_inserts -> commit_keeps ->
  attempts_loop self key n w = (Ret tt, w', t) ->
  contains self w' key = true.
Proof.
  intros Hins Hkeep H.
  apply attempts_loop_returns_inv in H. destruct H as (w0 & t0 & H).
  apply attempt_inv in H. inversion H; subst.
  - eapply Hkeep; eassumption.
  - eapply Hkeep; [|eassumption]. eapply Hins; eassumption.
  - match goal with
    | E : match ?r with Ret _ => _ | Raise _ => _ end = Ret tt |- _ =>
        destruct r; discriminate
    end.
Qed.

(** C1, as amended: once the work list is read, [populate] with
    suppression returns, or raises something that [except Exception]
    does not catch or that [print(error)] raised in the handler.  When
    it returns, the keys of the returned error list come from the work
    list; and if the work list has no duplicate, the callback has put
    its key in the target whenever it returns, and neither a commit
    nor the work on a key takes a key out of the target, then every
    key of the work list is in the target when [populate] returns or
    is the key of exactly one record of the returned error list. *)
Theorem populate_suppressing_accounts_for_keys
        (key_eq_dec : forall a b : Key, {a = b} + {a <> b})
        (fetch : World -> list Key) (restriction : option (Key -> bool))
        (w w' : World) (r : outcome exn (option (list error_record)))
        (t : list event) :
  is_Relation self = true ->
  populate_relation self = RelationalOperand fetch ->
  populate self restriction true false w = (r, w', t) ->
  match r with
  | Ret res =>
      exists errs,
        res = Some errs /\
        incl (map fst errs) (unpopulated self fetch restriction w) /\
        (NoDup (unpopulated self fetch restriction w) ->
         callback_inserts ->
         commit_keeps ->
         target_grows ->
         forall key,
           In key (unpopulated self fetch restriction w) ->
           contains self w' key = true \/
           count_occ key_eq_dec (map fst errs) key = 1)
  | Raise e =>
      is_Exception e = false \/
      exists e0 t0, t = t0 ++ [EvPrint] /\ print self e0 w' = Raise e
  end.
Proof.
  intros Hrel Hpr H. unfold populate in H. rewrite Hrel, Hpr in H.
  cbn [negb] in H. unfold bind, project in H.
  destruct (for_keys self true (unpopulated self fetch restriction w) (Some []) w)
    as [[r2 w2] t2] eqn:E.
  inversion H; subst. clear H. destruct r as [res|e].
  - destruct (for_keys_suppressing_returns _ _ _ _ _ _ E) as (errs & -> & Hin).
    exists errs. split; [reflexivity|]. split; [exact Hin|].
    intros Hnd Hins Hkeep Hgrow key Hkey.
    destruct (for_keys_suppressing_accounts
                (fun w key => contains self w key = true)
                (fun key w w' t H =>
                   attempts_loop_returns_in_target key _ w w' t Hins Hkeep H)
                Hgrow _ _ _ _ _ _ E)
      as (errs2 & Heq & _ & Hnd' & Hacc).
    inversion Heq; subst errs2.
    destruct (Hacc key Hkey) as [HD|Hx]; [left; exact HD|right].
    apply (proj1 (NoDup_count_occ' key_eq_dec (map fst errs)) (Hnd' Hnd) key Hx).
  - destruct (for_keys_suppressing_raises _ _ _ _ _ _ E)
      as [He|(e0 & t0 & -> & Hp)]; [left; exact He|right].
    exists e0, (EvFetch :: t0). split; [reflexivity|exact Hp].
Qed.

(** C9, as amended: let a first call of [populate] return with no
    failure (an empty error list with suppression, [None] without),
    under the same contract of the callback and the storage, and let
    the eligible relation read the same afterwards.  Then the work
    list of a second call is empty, and the second call returns at
    once: it reads the work list and calls nothing else, the callback
    least of all. *)
Theorem second_populate_finds_nothing
        (fetch : World -> list Key) (restriction : option (Key -> bool))
        (suppress_errors suppress_again : bool) (w w' : World)
        (t : list event) :
  is_Relation self = true ->
  populate_relation self = RelationalOperand fetch ->
  callback_inserts ->
  commit_keeps ->
  target_grows ->
  populate self restriction suppress_errors false w =
    (Ret (if suppress_errors then Some [] else None), w', t) ->
  fetch w' = fetch w ->
  unpopulated self fetch restriction w' = [] /\
  populate self restriction suppress_again false w' =
    (Ret (if suppress_again then Some [] else None), w', [EvFetch]).
Proof.
  intros Hrel Hpr Hins Hkeep Hgrow H Hfetch.
  set (Done := fun (w : World) (key : Key) => contains self w key = true).
  assert (Hest : forall key w w' t,
             attempts_loop self key max_attempts w = (Ret tt, w', t) -> Done w' key)
    by (intros key w0 w1 t0 H0;
        exact (attempts_loop_returns_in_target key _ w0 w1 t0 Hins Hkeep H0)).
  unfold populate in H. rewrite Hrel, Hpr in H. cbn [negb] in H.
  unfold bind, project in H.
  destruct (for_keys self suppress_errors (unpopulated self fetch restriction w)
              (if suppress_errors then Some [] else None) w)
    as [[r2 w2] t2] eqn:E.
  destruct r2 as [r2|e]; [|discriminate].
  inversion H; subst. clear H.
  assert (Hdone : forall key, In key (unpopulated self fetch restriction w) ->
                              Done w' key).
  { destruct suppress_errors.
    - destruct (for_keys_suppressing_accounts Done Hest Hgrow _ _ _ _ _ _ E)
        as (errs & Heq & _ & _ & Hacc).
      inversion Heq; subst errs.
      intros key Hkey. destruct (Hacc key Hkey) as [HD|[]]. exact HD.
    - eapply for_keys_strict_accounts; eassumption. }
  assert (Hkept : forall key, contains self w key = true -> Done w' key).
  { intros key Hkey.
    eapply for_keys_stable with (Done := Done); [exact Hgrow|exact Hkey|exact E]. }
  assert (Hnil : unpopulated self fetch restriction w' = []).
  { destruct (unpopulated self fetch restriction w') as [|key rest] eqn:E0;
      [reflexivity|exfalso].
    assert (Hin : In key (unpopulated self fetch restriction w'))
      by (rewrite E0; left; reflexivity).
    unfold unpopulated in Hin.
    apply filter_In in Hin. destruct Hin as [Hin Hres].
    apply filter_In in Hin. destruct Hin as [Hin Hnot].
    rewrite Hfetch in Hin.
    assert (HD : Done w' key).
    { destruct (contains self w key) eqn:Hc.
      - apply Hkept, Hc.
      - apply Hdone. unfold unpopulated.
        apply filter_In. split; [|exact Hres].
        apply filter_In. split; [exact Hin|]. rewrite Hc. reflexivity. }
    unfold Done in HD. rewrite HD in Hnot. discriminate. }
  split; [exact Hnil|].
  unfold populate. rewrite Hrel, Hpr. cbn [negb].
  unfold bind, project. rewrite Hnil.
  destruct suppress_again; reflexivity.
Qed.

End Properties.

(** ** The concrete stage keeps the contract *)

Lemma stage_has_insert (key : nat) (w : Stage.world) :
  Stage.has (Stage.insert key w) key = true.
Proof.
  unfold Stage.has, Stage.insert, Stage.visible.
  destruct (Stage.opened w); cbn; rewrite Nat.eqb_refl; reflexivity.
Qed.

Lemma stage_callback_inserts (plan : nat -> Stage.behaviour)
      (relation : pyvalue nat Stage.world) (b : bool) :
  (forall key, plan key <> Stage.Silent) ->
  callback_inserts (Stage.stage plan relation b).
Proof.
  intros Hplan key w1 w2. cbn. unfold Stage.make.
  specialize (Hplan key). destruct (plan key); try congruence.
  all: try discriminate.
  all: try (destruct (Stage.contention w1); [|discriminate]).
  all: intros H; inversion H; apply stage_has_insert.
Qed.

Lemma stage_commit_keeps (plan : nat -> Stage.behaviour)
      (relation : pyvalue nat Stage.world) (b : bool) :
  commit_keeps (Stage.stage plan relation b).
Proof.
  intros key w1 w2 Hk H. cbn in *. inversion H; subst. exact Hk.
Qed.

Lemma stage_make_rows (plan : nat -> Stage.behaviour) (key : nat)
      (w w2 : Stage.world) (l : list nat) (r : outcome Stage.error unit) :
  Stage.opened w = Some l ->
  Stage.make plan key w = (r, w2) ->
  Stage.rows w2 = Stage.rows w /\
  exists l', Stage.opened w2 = Some l' /\ incl l l'.
Proof.
  intros Ho H. unfold Stage.make, Stage.insert in H. rewrite Ho in H.
  destruct (plan key); [| | | |destruct (Stage.contention w)];
    inversion H; subst; cbn; split; try reflexivity;
    solve [ exists (key :: l); split; [reflexivity|apply incl_tl, incl_refl]
          | exists l; split; [assumption|apply incl_refl] ].
Qed.

Lemma existsb_incl (p : nat -> bool) (l l' : list nat) :
  incl l l' -> existsb p l = true -> existsb p l' = true.
Proof.
  intros Hi H. apply existsb_exists in H. destruct H as (x & Hx & Hp).
  apply existsb_exists. exists x. split; [apply Hi, Hx|exact Hp].
Qed.

Lemma stage_attempt_keeps (plan : nat -> Stage.behaviour)
      (relation : pyvalue nat Stage.world) (b : bool) (key key' : nat)
      (w w' : Stage.world) (r : outcome Stage.error unit)
      (t : list (event nat string)) :
  Stage.has w key = true ->
  attempt (Stage.stage plan relation b) key' w = (r, w', t) ->
  Stage.has w' key = true.
Proof.
  intros Hk H. apply attempt_inv in H.
  inversion H; subst; cbn in *;
    repeat match goal with
           | E : Stage.start _ = _ |- _ => inversion E; subst; clear E
           | E : Stage.commit _ = _ |- _ => inversion E; subst; clear E
           | E : Stage.cancel _ = _ |- _ => inversion E; subst; clear E
           end.
  - exact Hk.
  - match goal with
    | E : Stage.make _ _ _ = _ |- _ =>
        eapply stage_make_rows in E; [|reflexivity];
        destruct E as (_ & l' & Ho & Hi)
    end.
    unfold Stage.has, Stage.visible in *. cbn in *. rewrite Ho.
    eapply existsb_incl; eassumption.
  - match goal with
    | E : Stage.make _ _ _ = _ |- _ =>
        eapply stage_make_rows in E; [|reflexivity];
        destruct E as (Hrows & _)
    end.
    unfold Stage.has, Stage.visible in *. cbn in *. rewrite Hrows. exact Hk.
Qed.

Lemma stage_loop_keeps (plan : nat -> Stage.behaviour)
      (relation : pyvalue nat Stage.world) (b : bool) (key key' : nat)
      (n : nat) :
  forall (w w' : Stage.world) (r : outcome Stage.error unit)
         (t : list (event nat string)),
    Stage.has w key = true ->
    attempts_loop (Stage.stage plan relation b) key' n w = (r, w', t) ->
    Stage.has w' key = true.
Proof.
  induction n as [|n IH]; intros w w' r t Hk H.
  - rewrite attempts_loop_zero in H. inversion H; subst. exact Hk.
  - destruct (attempt (Stage.stage plan relation b) key' w)
      as [[r1 w1] t1] eqn:E.
    pose proof (stage_attempt_keeps _ _ _ _ _ _ _ _ _ Hk E) as Hk1.
    destruct r1 as [[]|e].
    + erewrite attempts_loop_done in H by exact E. inversion H; subst. exact Hk1.
    + destruct (is_TransactionError e) eqn:He.
      * destruct e as [| | |c1| |]; try discriminate.
        erewrite attempts_loop_retry in H by (first [exact E|reflexivity]).
        match type of H with
        | context [attempts_loop ?s ?k n ?w2] =>
            destruct (attempts_loop s k n w2) as [[r3 w3] t3] eqn:E3
        end.
        inversion H; subst. eapply IH; [|exact E3]. exact Hk1.
      * erewrite attempts_loop_terminal in H by eassumption.
        inversion H; subst. exact Hk1.
Qed.

Lemma stage_target_grows (plan : nat -> Stage.behaviour)
      (relation : pyvalue nat Stage.world) (b : bool) :
  target_grows (Stage.stage plan relation b).
Proof.
  intros key key' w1 r w2 t Hk H. eapply stage_loop_keeps; eassumption.
Qed.

Lemma tidy_plan_never_silent (key : nat) : Stage.tidy_plan key <> Stage.Silent.
Proof.
  do 7 (destruct key as [|key]; [discriminate|]). discriminate.
Qed.

(** ** Runs of the concrete stage *)

(** The suppressing run of the amended C1 on the work list [1, 2, 3]. *)
Lemma populate_suppressing_accounts_for_keys_witness :
  let self := tidy_stage (Stage.eligible [1; 2; 3]) true in
  let keys := unpopulated self (fun _ => [1; 2; 3]) None Stage.empty in
  let w' := {| Stage.rows := [3; 1]; Stage.opened := None;
               Stage.contention := 0 |} in
  NoDup keys /\
  exists errs,
    Some [(2, Stage.value_error)] = Some errs /\
    incl (map fst errs) keys /\
    forall key,
      In key keys ->
      Stage.has w' key = true \/ count_occ Nat.eq_dec (map fst errs) key = 1.
Proof.
  cbv zeta.
  assert (Hnd : NoDup (unpopulated (tidy_stage (Stage.eligible [1; 2; 3]) true)
                                   (fun _ => [1; 2; 3]) None Stage.empty)).
  { cbn. repeat constructor; cbn; intuition discriminate. }
  split; [exact Hnd|].
  destruct (populate_suppressing_accounts_for_keys
              (tidy_stage (Stage.eligible [1; 2; 3]) true) Nat.eq_dec
              (fun _ => [1; 2; 3]) None Stage.empty
              {| Stage.rows := [3; 1]; Stage.opened := None;
                 Stage.contention := 0 |}
              (Ret (Some [(2, Stage.value_error)]))
              [EvFetch;
               EvStart; EvContains 1 false; EvMake 1; EvCommit;
               EvStart; EvContains 2 false; EvMake 2; EvCancel; EvPrint;
               EvStart; EvContains 3 false; EvMake 3; EvCommit]
              eq_refl eq_refl eq_refl)
    as (errs & Hres & Hincl & Hacc).
  exists errs. split; [exact Hres|]. split; [exact Hincl|].
  apply Hacc.
  - exact Hnd.
  - apply stage_callback_inserts, tidy_plan_never_silent.
  - apply stage_commit_keeps.
  - apply stage_target_grows.
Defined.

(** C1 fails as stated: the callback of key 7 returns without writing
    a row, so after a suppressing run key 7 is neither in the target
    nor in the error list. *)
Lemma silent_key_is_unaccounted :
  exists errs w' t,
    populate (run_stage (Stage.eligible [7]) true) None true false Stage.empty
      = (Ret (Some errs), w', t) /\
    In 7 (unpopulated (run_stage (Stage.eligible [7]) true)
                      (fun _ => [7]) None Stage.empty) /\
    Stage.has w' 7 = false /\
    count_occ Nat.eq_dec (map fst errs) 7 = 0.
Proof.
  do 3 eexists. split; [vm_compute; reflexivity|].
  split; [left; reflexivity|]. split; reflexivity.
Qed.

(** Key 5 meets a conflict at every attempt, in every world whose
    target does not hold it. *)
Lemma stage_key_5_always_conflicts (relation : pyvalue nat Stage.world) :
  always_conflicts (run_stage relation true)
                   (fun w => Stage.has w 5 = false) 5.
Proof.
  intros w Hw. cbn.
  do 5 eexists. split; [reflexivity|].
  split; [exact Hw|]. split; [reflexivity|].
  split; [reflexivity|]. split; [reflexivity|]. exact Hw.
Qed.

(** The run of the amended C2 on key 5. *)
Lemma give_up_after_max_attempts_witness :
  Stage.has Stage.empty 5 = false /\
  exists w' t,
    attempts_loop (run_stage (Stage.eligible [5; 1]) true) 5 max_attempts
                  Stage.empty =
      (Raise (DataJointError
                "<class 'Stage'>._make_tuples failed after multiple attempts, giving up"),
       w', t) /\
    transactions_opened t = 10 /\
    callback_calls t = 10 /\
    for_keys (run_stage (Stage.eligible [5; 1]) true) false [5; 1] None
             Stage.empty =
      (Raise (DataJointError
                "<class 'Stage'>._make_tuples failed after multiple attempts, giving up"),
       w', t).
Proof.
  split; [reflexivity|].
  apply (proj2 (give_up_after_max_attempts
                  (run_stage (Stage.eligible [5; 1]) true)
                  (fun w => Stage.has w 5 = false) 5 [1] None Stage.empty)).
  - reflexivity.
  - apply stage_key_5_always_conflicts.
Defined.

(** C2 fails as stated: the error that ends the attempts names
    neither the key nor the number of attempts.  It is the same error
    for key 5 and for key 9, whose texts it does not contain, and the
    text of the bound, 10, is not in it either. *)
Lemma give_up_error_names_no_key :
  let message :=
    "<class 'Stage'>._make_tuples failed after multiple attempts, giving up"%string in
  fst (fst (attempts_loop (run_stage (Stage.eligible [5; 9]) true) 5
                          max_attempts Stage.empty))
    = Raise (DataJointError message) /\
  fst (fst (attempts_loop (run_stage (Stage.eligible [5; 9]) true) 9
                          max_attempts Stage.empty))
    = Raise (DataJointError message) /\
  String.index 0 "5" message = None /\
  String.index 0 "9" message = None /\
  String.index 0 "10" message = None.
Proof.
  cbv zeta. repeat split; vm_compute; reflexivity.
Qed.

(** The run of C3 on the work list [1, 2, 3]: key 1 is stored, the
    error of key 2 comes out, key 3 is not touched. *)
Lemma populate_aborts_at_first_failure_witness :
  let self := run_stage (Stage.eligible [1; 2; 3]) true in
  let t1 := [EvStart; EvContains 1 false; EvMake 1; EvCommit] in
  let t := EvFetch :: t1 ++ [EvStart; EvContains 2 false; EvMake 2; EvCancel] in
  populate self None false false Stage.empty =
    (Raise Stage.value_error,
     {| Stage.rows := [1]; Stage.opened := None; Stage.contention := 0 |}, t) /\
  (exists t0, t1 = t0 ++ [EvCommit]) /\
  (forall ev key, In ev t -> event_key ev = Some key -> key = 1 \/ key = 2).
Proof.
  cbv zeta.
  eapply (populate_aborts_at_first_failure
            (run_stage (Stage.eligible [1; 2; 3]) true)
            (fun _ => [1; 2; 3]) None 1 2 3 Stage.empty);
    reflexivity.
Defined.

(** The run of C4 on key 4, already in the target. *)
Lemma attempt_rechecks_inside_transaction_witness :
  let self := run_stage (Stage.eligible [4]) true in
  let w := {| Stage.rows := [4]; Stage.opened := None; Stage.contention := 0 |} in
  let w1 := {| Stage.rows := [4]; Stage.opened := Some [4]; Stage.contention := 0 |} in
  (forall r w' t,
      attempt self 4 w = (r, w', t) ->
      (Stage.has w1 4 = true /\
       t = [EvStart; EvContains 4 true; EvCommit]) \/
      (Stage.has w1 4 = false /\
       (t = [EvStart; EvContains 4 false; EvMake 4; EvCommit] \/
        t = [EvStart; EvContains 4 false; EvMake 4; EvCancel]))) /\
  (Stage.has w1 4 = true ->
   forall r w2,
     Stage.commit w1 = (r, w2) ->
     attempt self 4 w = (r, w2, [EvStart; EvContains 4 true; EvCommit]) /\
     callback_calls [@EvStart nat string; EvContains 4 true; EvCommit] = 0 /\
     (r = Ret tt ->
      forall n,
        attempts_loop self 4 (S n) w =
          (Ret tt, w2, [EvStart; EvContains 4 true; EvCommit]))).
Proof.
  cbv zeta.
  apply (attempt_rechecks_inside_transaction
           (run_stage (Stage.eligible [4]) true) 4
           {| Stage.rows := [4]; Stage.opened := None; Stage.contention := 0 |}
           {| Stage.rows := [4]; Stage.opened := Some [4]; Stage.contention := 0 |}).
  reflexivity.
Defined.







(** The run of C8 on a stage whose [populate_relation] is not a
    relational operand. *)
Lemma populate_invalid_relation_raises_first_witness :
  populate (run_stage OtherObject true) None false false Stage.empty =
    (Raise (DataJointError "Invalid populate_relation value"), Stage.empty, []).
Proof.
  apply (populate_invalid_relation_raises_first
           (run_stage OtherObject true) None false Stage.empty).
  reflexivity.
Defined.

(** The two calls of the amended C9: the first stores keys 1 and 3, the
    second finds nothing to do. *)
Lemma second_populate_finds_nothing_witness :
  let self := tidy_stage (Stage.eligible [1; 3]) true in
  let w' := {| Stage.rows := [3; 1]; Stage.opened := None; Stage.contention := 0 |} in
  populate self None false false Stage.empty =
    (Ret None, w',
     [EvFetch;
      EvStart; EvContains 1 false; EvMake 1; EvCommit;
      EvStart; EvContains 3 false; EvMake 3; EvCommit]) /\
  unpopulated self (fun _ => [1; 3]) None w' = [] /\
  populate self None true false w' = (Ret (Some []), w', [EvFetch]).
Proof.
  cbv zeta. split; [reflexivity|].
  apply (second_populate_finds_nothing
           (tidy_stage (Stage.eligible [1; 3]) true) (fun _ => [1; 3]) None
           false true Stage.empty
           {| Stage.rows := [3; 1]; Stage.opened := None; Stage.contention := 0 |}
           [EvFetch;
            EvStart; EvContains 1 false; EvMake 1; EvCommit;
            EvStart; EvContains 3 false; EvMake 3; EvCommit]).
  - reflexivity.
  - reflexivity.
  - apply stage_callback_inserts, tidy_plan_never_silent.
  - apply stage_commit_keeps.
  - apply stage_target_grows.
  - reflexivity.
  - reflexivity.
Defined.

(** C9 fails as stated: after a suppressing run in which key 2 failed,
    nothing has changed in the eligible relation, and yet the work list
    of the second call holds key 2 and the callback is called again. *)
Lemma failed_key_is_computed_again :
  let self := run_stage (Stage.eligible [1; 2]) true in
  let first := populate self None true false Stage.empty in
  let second := populate self None true false (snd (fst first)) in
  fst (fst first) = Ret (Some [(2, Stage.value_error)]) /\
  unpopulated self (fun _ => [1; 2]) None (snd (fst first)) = [2] /\
  snd second =
    [EvFetch; EvStart; EvContains 2 false; EvMake 2; EvCancel; EvPrint] /\
  callback_calls (snd second) = 1.
Proof.
  cbv zeta. repeat split; vm_compute; reflexivity.
Qed.


(** ** More properties of [populate] *)

Section Batch.

Context {Key World Conflict UserExn : Type}.
Variable self : collaborators Key World Conflict UserExn.

Local Abbreviation exn := (exn Conflict UserExn).
Local Abbreviation event := (event Key Conflict).
Local Abbreviation error_record := (error_record Key Conflict UserExn).

(** *** Taking the loops apart *)

Lemma attempts_loop_succ_inv (key : Key) (n : nat) (w w' : World)
      (r : outcome exn unit) (t : list event) :
  attempts_loop self key (S n) w = (r, w', t) ->
  exists r1 w1 t1,
    attempt self key w = (r1, w1, t1) /\
    ((r1 = Ret tt /\ r = Ret tt /\ w' = w1 /\ t = t1) \/
     (exists e, r1 = Raise e /\ is_TransactionError e = false /\
                r = Raise e /\ w' = w1 /\ t = t1) \/
     (exists c w2 t3,
         r1 = Raise (TransactionError c) /\
         resolve self c w1 = (Ret tt, w2) /\
         attempts_loop self key n w2 = (r, w', t3) /\
         t = t1 ++ EvResolve c :: t3) \/
     (exists c e,
         r1 = Raise (TransactionError c) /\
         resolve self c w1 = (Raise e, w') /\
         r = Raise e /\ t = t1 ++ [EvResolve c])).
Proof.
  intros H. destruct (attempt self key w) as [[r1 w1] t1] eqn:E.
  exists r1, w1, t1. split; [reflexivity|].
  destruct r1 as [[]|e].
  - erewrite attempts_loop_done in H by exact E. inversion H; subst.
    left. repeat split.
  - destruct (is_TransactionError e) eqn:He.
    + destruct e as [| | |c| |]; try discriminate.
      destruct (resolve self c w1) as [[[]|e'] w2] eqn:Hr.
      * erewrite attempts_loop_retry in H by eassumption.
        destruct (attempts_loop self key n w2) as [[r3 w3] t3] eqn:E3.
        inversion H; subst. right. right. left.
        exists c, w2, t3. repeat split; auto.
      * erewrite attempts_loop_resolve_raises in H by eassumption.
        inversion H; subst. right. right. right.
        exists c, e'. repeat split; auto.
    + erewrite attempts_loop_terminal in H by eassumption.
      inversion H; subst. right. left. exists e. repeat split; auto.
Qed.

(** A property of traces that holds of the empty trace, of a
    resolution, of the trace of any attempt on the key, and of a
    concatenation, holds of the trace of the retry loop. *)
Lemma attempts_loop_trace_ind (P : list event -> Prop) (key : Key) :
  P [] ->
  (forall t1 t2, P t1 -> P t2 -> P (t1 ++ t2)) ->
  (forall c, P [EvResolve c]) ->
  (forall w r w' t, attempt self key w = (r, w', t) -> P t) ->
  forall n w r w' t, attempts_loop self key n w = (r, w', t) -> P t.
Proof.
  intros Hnil Happ Hres Hatt. induction n as [|n IH]; intros w r w' t H.
  - rewrite attempts_loop_zero in H. inversion H; subst. exact Hnil.
  - apply attempts_loop_succ_inv in H.
    destruct H as (r1 & w1 & t1 & E & H). apply Hatt in E.
    destruct H as [(_ & _ & _ & ->)|[(e & _ & _ & _ & _ & ->)|
                   [(c & w2 & t3 & _ & _ & E3 & ->)|(c & e & _ & _ & _ & ->)]]].
    + exact E.
    + exact E.
    + apply Happ; [exact E|]. change (EvResolve c :: t3) with ([EvResolve c] ++ t3).
      apply Happ; [apply Hres|]. eapply IH. exact E3.
    + apply Happ; [exact E|apply Hres].
Qed.

Lemma for_keys_trace_ind (P : list event -> Prop) (suppress_errors : bool)
      (keys : list Key) :
  P [] ->
  P [EvPrint] ->
  (forall t1 t2, P t1 -> P t2 -> P (t1 ++ t2)) ->
  (forall key w r w' t,
      In key keys ->
      attempts_loop self key max_attempts w = (r, w', t) -> P t) ->
  forall error_list w r w' t,
    for_keys self suppress_errors keys error_list w = (r, w', t) -> P t.
Proof.
  intros Hnil Hprint Happ.
  induction keys as [|key rest IH]; intros Hloop el w r w' t H.
  - inversion H; subst. exact Hnil.
  - assert (IH' : forall s el w r w' t,
               s = suppress_errors ->
               for_keys self s rest el w = (r, w', t) -> P t)
      by (intros s el0 w0 r0 w0' t0 ->; apply IH;
          intros k w2 r2 w2' t2 Hk; apply Hloop; right; exact Hk).
    apply for_keys_cons_inv in H.
    destruct H as (r1 & w1 & t1 & E & H).
    apply Hloop in E; [|left; reflexivity].
    destruct H as [(_ & t2 & E2 & ->)|[(e & _ & _ & _ & _ & ->)|
                   [(e & l & t2 & _ & Hs & _ & _ & _ & E2 & ->)|
                    [(e & e' & _ & _ & _ & _ & _ & _ & ->)|
                     (e & _ & _ & _ & _ & _ & _ & _ & ->)]]]].
    + apply Happ; [exact E|]. eapply IH'; [reflexivity|exact E2].
    + exact E.
    + apply Happ; [exact E|].
      change (EvPrint :: t2) with ([@EvPrint Key Conflict] ++ t2).
      apply Happ; [exact Hprint|]. eapply IH'; [symmetry; exact Hs|exact E2].
    + apply Happ; [exact E|exact Hprint].
    + apply Happ; [exact E|exact Hprint].
Qed.

Lemma transactions_opened_app (t1 t2 : list event) :
  transactions_opened (t1 ++ t2) = transactions_opened t1 + transactions_opened t2.
Proof.
  unfold transactions_opened. rewrite filter_app, length_app. reflexivity.
Qed.

Lemma callback_calls_app (t1 t2 : list event) :
  callback_calls (t1 ++ t2) = callback_calls t1 + callback_calls t2.
Proof.
  unfold callback_calls. rewrite filter_app, length_app. reflexivity.
Qed.

Lemma transactions_closed_app (t1 t2 : list event) :
  transactions_closed (t1 ++ t2) = transactions_closed t1 + transactions_closed t2.
Proof.
  unfold transactions_closed. rewrite filter_app, length_app. reflexivity.
Qed.

Lemma attempt_round (key : Key) (w w' : World) (r : outcome exn unit)
      (t : list event) :
  attempt self key w = (r, w', t) ->
  round_of key t /\ forall c, round_of key (t ++ [EvResolve c]).
Proof.
  intros H. apply attempt_inv in H.
  inversion H; subst; (split; [|intros c]);
    (eexists; split; [reflexivity|]);
    cbn; (split; [reflexivity|]); (split; [lia|]); (split; [lia|]);
    intros ev k Hin Hev; cbn in Hin;
    repeat (destruct Hin as [<-|Hin]; [cbn in Hev; congruence|]);
    destruct Hin.
Qed.

Lemma attempts_loop_rounds (key : Key) (n : nat) :
  forall w r w' t,
    attempts_loop self key n w = (r, w', t) ->
    exists rounds,
      t = List.concat rounds /\
      List.length rounds <= n /\
      Forall (round_of key) rounds.
Proof.
  induction n as [|n IH]; intros w r w' t H.
  - rewrite attempts_loop_zero in H. inversion H; subst.
    exists []. split; [reflexivity|]. split; [apply le_n|constructor].
  - apply attempts_loop_succ_inv in H.
    destruct H as (r1 & w1 & t1 & E & H). apply attempt_round in E.
    destruct E as [Hround Hresolved].
    destruct H as [(_ & _ & _ & ->)|[(e & _ & _ & _ & _ & ->)|
                   [(c & w2 & t3 & _ & _ & E3 & ->)|(c & e & _ & _ & _ & ->)]]].
    + exists [t1]. cbn. rewrite app_nil_r. split; [reflexivity|].
      split; [lia|]. constructor; [exact Hround|constructor].
    + exists [t1]. cbn. rewrite app_nil_r. split; [reflexivity|].
      split; [lia|]. constructor; [exact Hround|constructor].
    + destruct (IH _ _ _ _ E3) as (rounds & -> & Hlen & Hall).
      exists ((t1 ++ [EvResolve c]) :: rounds). cbn [List.concat].
      rewrite <- app_assoc. split; [reflexivity|].
      split; [cbn; lia|]. constructor; [apply Hresolved|exact Hall].
    + exists [t1 ++ [EvResolve c]]. cbn. rewrite app_nil_r.
      split; [reflexivity|]. split; [lia|].
      constructor; [apply Hresolved|constructor].
Qed.

Lemma for_keys_segments (suppress_errors : bool) (keys : list Key) :
  forall error_list w r w' t,
    for_keys self suppress_errors keys error_list w = (r, w', t) ->
    exists segments : list (segment Key Conflict),
      t = List.concat (map segment_trace segments) /\
      (exists rest, keys = map seg_key segments ++ rest) /\
      Forall (fun seg =>
                List.length (seg_rounds seg) <= max_attempts /\
                Forall (round_of (seg_key seg)) (seg_rounds seg))
             segments.
Proof.
  induction keys as [|key rest IH]; intros el w r w' t H.
  - inversion H; subst. exists []. split; [reflexivity|].
    split; [exists []; reflexivity|constructor].
  - apply for_keys_cons_inv in H. destruct H as (r1 & w1 & t1 & E & H).
    apply attempts_loop_rounds in E. destruct E as (rounds & -> & Hlen & Hall).
    destruct H as [(_ & t2 & E2 & ->)|[(e & _ & _ & _ & _ & ->)|
                   [(e & l & t2 & _ & -> & _ & _ & _ & E2 & ->)|
                    [(e & e' & _ & _ & _ & _ & _ & _ & ->)|
                     (e & _ & _ & _ & _ & _ & _ & _ & ->)]]]].
    + destruct (IH _ _ _ _ _ E2) as (segs & -> & (rest' & ->) & Hsegs).
      exists ({| seg_key := key; seg_rounds := rounds; seg_printed := false |}
                :: segs).
      split; [cbn; unfold segment_trace at 1; cbn; rewrite app_nil_r; reflexivity|].
      split; [exists rest'; reflexivity|].
      constructor; [split; assumption|exact Hsegs].
    + exists [{| seg_key := key; seg_rounds := rounds; seg_printed := false |}].
      split; [cbn; unfold segment_trace; cbn; rewrite !app_nil_r; reflexivity|].
      split; [exists rest; reflexivity|].
      constructor; [split; assumption|constructor].
    + destruct (IH _ _ _ _ _ E2) as (segs & -> & (rest' & ->) & Hsegs).
      exists ({| seg_key := key; seg_rounds := rounds; seg_printed := true |}
                :: segs).
      split; [cbn; unfold segment_trace at 1; cbn; rewrite <- app_assoc;
              reflexivity|].
      split; [exists rest'; reflexivity|].
      constructor; [split; assumption|exact Hsegs].
    + exists [{| seg_key := key; seg_rounds := rounds; seg_printed := true |}].
      split; [cbn; unfold segment_trace; cbn; rewrite app_nil_r; reflexivity|].
      split; [exists rest; reflexivity|].
      constructor; [split; assumption|constructor].
    + exists [{| seg_key := key; seg_rounds := rounds; seg_printed := true |}].
      split; [cbn; unfold segment_trace; cbn; rewrite app_nil_r; reflexivity|].
      split; [exists rest; reflexivity|].
      constructor; [split; assumption|constructor].
Qed.

(** *** Bounds on a whole run *)

(** X1: whatever its outcome, a run of [populate] that is past the
    guards is the read of the work list followed by one part for each
    key of a beginning of the work list, in the order of the work
    list.  The part of a key is made of at most [max_attempts]
    attempts, then the printing of its error if it comes to that; and
    each attempt opens exactly one transaction, calls the callback at
    most once and commits or cancels at most once, every check and
    call in it being for that key. *)
Theorem populate_attempts_bounded
        (fetch : World -> list Key) (restriction : option (Key -> bool))
        (suppress_errors : bool) (w w' : World)
        (r : outcome exn (option (list error_record))) (t : list event) :
  is_Relation self = true ->
  populate_relation self = RelationalOperand fetch ->
  populate self restriction suppress_errors false w = (r, w', t) ->
  exists segments : list (segment Key Conflict),
    t = EvFetch :: List.concat (map segment_trace segments) /\
    (exists rest,
        unpopulated self fetch restriction w = map seg_key segments ++ rest) /\
    Forall (fun seg =>
              List.length (seg_rounds seg) <= max_attempts /\
              Forall (round_of (seg_key seg)) (seg_rounds seg))
           segments.
Proof.
  intros Hrel Hpr H. unfold populate in H. rewrite Hrel, Hpr in H.
  cbn [negb] in H. unfold bind, project in H.
  destruct (for_keys self suppress_errors (unpopulated self fetch restriction w)
              (if suppress_errors then Some [] else None) w)
    as [[r2 w2] t2] eqn:E.
  inversion H; subst.
  destruct (for_keys_segments _ _ _ _ _ _ _ E) as (segs & -> & Hpre & Hall).
  exists segs. split; [reflexivity|]. split; assumption.
Qed.

(** X2: without suppression, a call that returns has met no failure:
    under the contract of the callback and the storage, every key of
    the work list is then in the target. *)
Theorem populate_strict_return_populates
        (fetch : World -> list Key) (restriction : option (Key -> bool))
        (w w' : World) (res : option (list error_record)) (t : list event) :
  populate_relation self = RelationalOperand fetch ->
  callback_inserts self ->
  commit_keeps self ->
  target_grows self ->
  populate self restriction false false w = (Ret res, w', t) ->
  forall key,
    In key (unpopulated self fetch restriction w) ->
    contains self w' key = true.
Proof.
  intros Hpr Hins Hkeep Hgrow H. unfold populate in H.
  destruct (is_Relation self); cbn [negb] in H; [|discriminate].
  rewrite Hpr in H. unfold bind, project in H.
  destruct (for_keys self false (unpopulated self fetch restriction w) None w)
    as [[r2 w2] t2] eqn:E.
  destruct r2 as [r2|e]; [|discriminate]. inversion H; subst.
  eapply (for_keys_strict_accounts self
            (fun w key => contains self w key = true)); [| |exact E].
  - intros key w0 w1 t0 H0.
    exact (attempts_loop_returns_in_target self key _ w0 w1 t0 Hins Hkeep H0).
  - exact Hgrow.
Qed.

(** X3: whatever the outcome of [populate], every membership check
    and every call of the callback in its run is for a key of the work
    list: an eligible key that was not in the target when the call
    began and that passes the restriction. *)
Theorem populate_touches_work_list_only
        (fetch : World -> list Key) (restriction : option (Key -> bool))
        (suppress_errors reserve_jobs : bool) (w w' : World)
        (r : outcome exn (option (list error_record))) (t : list event) :
  populate_relation self = RelationalOperand fetch ->
  populate self restriction suppress_errors reserve_jobs w = (r, w', t) ->
  forall ev key,
    In ev t ->
    event_key ev = Some key ->
    In key (fetch w) /\
    contains self w key = false /\
    match restriction with
    | Some keep => keep key = true
    | None => True
    end.
Proof.
  intros Hpr H ev key Hin Hev.
  assert (Hwork : In key (unpopulated self fetch restriction w)).
  { unfold populate in H.
    destruct reserve_jobs; [inversion H; subst; destruct Hin|].
    destruct (is_Relation self); cbn [negb] in H;
      [|inversion H; subst; destruct Hin].
    rewrite Hpr in H. unfold bind, project in H.
    destruct (for_keys self suppress_errors (unpopulated self fetch restriction w)
                (if suppress_errors then Some [] else None) w)
      as [[r2 w2] t2] eqn:E.
    inversion H; subst. destruct Hin as [<-|Hin]; [discriminate|].
    revert E ev key Hin Hev.
    apply (for_keys_trace_ind
             (fun t => forall ev key,
                  In ev t -> event_key ev = Some key ->
                  In key (unpopulated self fetch restriction w))).
    - intros ev key [].
    - intros ev key [<-|[]] Hev; discriminate.
    - intros t1 t3 H1 H3 ev key Hin Hev. apply in_app_or in Hin.
      destruct Hin as [Hin|Hin]; [eapply H1|eapply H3]; eassumption.
    - intros k w0 r0 w0' t0 Hk E0 ev key Hin Hev.
      rewrite (attempts_loop_events self k _ _ _ _ _ E0 ev key Hin Hev).
      exact Hk. }
  unfold unpopulated in Hwork.
  apply filter_In in Hwork. destruct Hwork as [Hwork Hres].
  apply filter_In in Hwork. destruct Hwork as [Hwork Hnot].
  split; [exact Hwork|]. split.
  - destruct (contains self w key); [discriminate|reflexivity].
  - destruct restriction; [exact Hres|exact I].
Qed.

(** *** The error list *)



(** *** The two modes side by side *)

Lemma for_keys_modes_clean (keys : list Key) :
  forall (l : list error_record) (w w' : World) (t : list event),
    for_keys self false keys None w = (Ret None, w', t) <->
    for_keys self true keys (Some l) w = (Ret (Some l), w', t).
Proof.
  induction keys as [|key rest IH]; intros l w w' t.
  - cbn. unfold ret. split; intros H; inversion H; subst; reflexivity.
  - split; intros H; apply for_keys_cons_inv in H;
      destruct H as (r1 & w1 & t1 & E & H);
      destruct H as [(-> & t2 & E2 & ->)|[(e & -> & Hc & Hr & Hw & Ht)|
                     [(e & l0 & t2 & -> & Hs & He & Hp & Hl & E2 & ->)|
                      [(e & e' & -> & Hs & He & Hp & Hr & Hw & Ht)|
                       (e & -> & Hs & He & Hp & Hl & Hr & Hw & Ht)]]]];
      try discriminate.
    + erewrite for_keys_ok by exact E.
      apply (IH l) in E2. rewrite E2. reflexivity.
    + erewrite for_keys_ok by exact E.
      apply (IH l) in E2. rewrite E2. reflexivity.
    + exfalso. inversion Hl; subst l0.
      destruct (for_keys_suppressing_returns self _ _ _ _ _ _ E2) as (errs & Hlen & _).
      inversion Hlen as [Hlist].
      apply (f_equal (@List.length _)) in Hlist.
      rewrite !length_app in Hlist. cbn in Hlist. lia.
Qed.

(** X6: the two modes agree on a run without failure.  [populate]
    without suppression returns (its value is then [None]) exactly
    when [populate] with suppression returns the empty error list, and
    the two runs make the same calls and leave the same world. *)
Theorem populate_modes_agree_without_failure
        (restriction : option (Key -> bool)) (w w' : World) (t : list event) :
  populate self restriction false false w = (Ret None, w', t) <->
  populate self restriction true false w = (Ret (Some []), w', t).
Proof.
  unfold populate.
  destruct (is_Relation self); cbn [negb];
    [|split; intros H; discriminate].
  destruct (populate_relation self) as [fetch|];
    [|split; intros H; discriminate].
  unfold bind, project.
  destruct (for_keys self false (unpopulated self fetch restriction w) None w)
    as [[r1 w1] t1] eqn:E1.
  destruct (for_keys self true (unpopulated self fetch restriction w) (Some []) w)
    as [[r2 w2] t2] eqn:E2.
  split; intros H; inversion H; subst.
  - apply (for_keys_modes_clean _ []) in E1. rewrite E1 in E2.
    inversion E2; subst. reflexivity.
  - apply (for_keys_modes_clean _ []) in E2. rewrite E2 in E1.
    inversion E1; subst. reflexivity.
Qed.

Lemma for_keys_first_failure (keys : list Key) :
  forall (l : list error_record) (el : option (list error_record))
         (w w' : World) (t : list event) (key : Key) (e : exn)
         (errs : list error_record),
    for_keys self true keys (Some l) w =
      (Ret (Some (l ++ (key, e) :: errs)), w', t) ->
    exists w1 t1 t2,
      for_keys self false keys el w = (Raise e, w1, t1) /\ t = t1 ++ t2.
Proof.
  induction keys as [|k rest IH]; intros l el w w' t key e errs H.
  - inversion H as [[Hl Hw Ht]]. exfalso.
    apply (f_equal (@List.length _)) in Hl.
    rewrite length_app in Hl. cbn in Hl. lia.
  - apply for_keys_cons_inv in H. destruct H as (r1 & w1 & t1 & E & H).
    destruct H as [(-> & t2 & E2 & ->)|[(e0 & -> & Hc & Hr & Hw & Ht)|
                   [(e0 & l0 & t2 & -> & Hs & He & Hp & Hl & E2 & ->)|
                    [(e0 & e' & -> & Hs & He & Hp & Hr & Hw & Ht)|
                     (e0 & -> & Hs & He & Hp & Hl & Hr & Hw & Ht)]]]];
      try discriminate.
    + destruct (IH _ el _ _ _ _ _ _ E2) as (w2 & t3 & t4 & E3 & ->).
      exists w2, (t1 ++ t3), t4. erewrite for_keys_ok by exact E.
      rewrite E3. split; [reflexivity|apply app_assoc].
    + inversion Hl; subst l0.
      destruct (for_keys_suppressing_returns self _ _ _ _ _ _ E2) as (errs' & Heq & _).
      inversion Heq as [Hlist].
      rewrite <- app_assoc in Hlist. apply app_inv_head in Hlist.
      inversion Hlist; subst.
      exists w1, t1, (EvPrint :: t2). split; [|reflexivity].
      eapply for_keys_raise. exact E.
Qed.

(** X7: the first record of the error list that [populate] returns
    with suppression holds the error that [populate] raises without
    suppression from the same world, and the run without suppression
    is the beginning of the run with suppression. *)
Theorem populate_first_record_is_strict_error
        (restriction : option (Key -> bool)) (w w' : World) (t : list event)
        (key : Key) (e : exn) (errs : list error_record) :
  populate self restriction true false w =
    (Ret (Some ((key, e) :: errs)), w', t) ->
  exists w1 t1 t2,
    populate self restriction false false w = (Raise e, w1, t1) /\
    t = t1 ++ t2.
Proof.
  unfold populate.
  destruct (is_Relation self); cbn [negb]; [|discriminate].
  destruct (populate_relation self) as [fetch|]; [|discriminate].
  unfold bind, project. intros H.
  destruct (for_keys self true (unpopulated self fetch restriction w) (Some []) w)
    as [[r2 w2] t2] eqn:E2.
  inversion H; subst.
  destruct (for_keys_first_failure _ [] None _ _ _ _ _ _ E2)
    as (w1 & t1 & t3 & E1 & ->).
  exists w1, (EvFetch :: t1), t3. rewrite E1. split; reflexivity.
Qed.

(** *** Where the callback is called *)

Lemma guarded_app (key : Key) (ta tb : list event) :
  (forall t1 t2, ta = t1 ++ EvMake key :: t2 ->
                 exists t0, t1 = t0 ++ [EvStart; EvContains key false]) ->
  (forall t1 t2, tb = t1 ++ EvMake key :: t2 ->
                 exists t0, t1 = t0 ++ [EvStart; EvContains key false]) ->
  forall t1 t2, ta ++ tb = t1 ++ EvMake key :: t2 ->
                exists t0, t1 = t0 ++ [EvStart; EvContains key false].
Proof.
  intros Ha Hb t1 t2 H. apply app_eq_app in H.
  destruct H as (l & [[H1 H2]|[H1 H2]]).
  - destruct l as [|x l].
    + cbn in H2. rewrite app_nil_r in H1. subst.
      destruct (Hb [] t2 eq_refl) as (t0 & H0).
      destruct t0; discriminate.
    + inversion H2; subst. eapply Ha. reflexivity.
  - destruct (Hb l t2 H2) as (t0 & ->). exists (ta ++ t0).
    rewrite H1, app_assoc. reflexivity.
Qed.

(** X4: whatever the outcome of [populate], each call of the callback
    in its run comes right after the opening of a transaction and a
    membership check of the same key that did not find it. *)
Theorem populate_calls_callback_after_check
        (restriction : option (Key -> bool))
        (suppress_errors reserve_jobs : bool) (w w' : World)
        (r : outcome exn (option (list error_record))) (t : list event) :
  populate self restriction suppress_errors reserve_jobs w = (r, w', t) ->
  forall key t1 t2,
    t = t1 ++ EvMake key :: t2 ->
    exists t0, t1 = t0 ++ [EvStart; EvContains key false].
Proof.
  intros H key.
  assert (Hnil : forall t1 t2 : list event,
             [] = t1 ++ EvMake key :: t2 ->
             exists t0, t1 = t0 ++ [EvStart; EvContains key false])
    by (intros t1 t2 H0; destruct t1; discriminate).
  unfold populate in H.
  destruct reserve_jobs; [inversion H; subst; exact Hnil|].
  destruct (is_Relation self); cbn [negb] in H; [|inversion H; subst; exact Hnil].
  destruct (populate_relation self) as [fetch|]; [|inversion H; subst; exact Hnil].
  unfold bind, project in H.
  destruct (for_keys self suppress_errors (unpopulated self fetch restriction w)
              (if suppress_errors then Some [] else None) w)
    as [[r2 w2] t2] eqn:E.
  inversion H; subst.
  change (EvFetch :: t2) with ([@EvFetch Key Conflict] ++ t2).
  apply guarded_app.
  - intros t1 t3 H0. destruct t1 as [|x [|y t1]]; discriminate.
  - revert E.
    apply (for_keys_trace_ind
             (fun t => forall t1 t2,
                  t = t1 ++ EvMake key :: t2 ->
                  exists t0, t1 = t0 ++ [EvStart; EvContains key false])).
    + exact Hnil.
    + intros t1 t3 H0. destruct t1 as [|x [|y t1]]; discriminate.
    + intros ta tb. apply guarded_app.
    + intros k w0 r0 w0' t0 _.
      apply (attempts_loop_trace_ind
               (fun t => forall t1 t2,
                    t = t1 ++ EvMake key :: t2 ->
                    exists t0, t1 = t0 ++ [EvStart; EvContains key false])).
      * exact Hnil.
      * intros ta tb. apply guarded_app.
      * intros c t1 t3 H0. destruct t1 as [|x [|y t1]]; discriminate.
      * intros w1 r1 w1' t1 Ha t3 t4 H0. apply attempt_inv in Ha.
        inversion Ha; subst;
          repeat (destruct t3 as [|? t3]; try discriminate);
          match goal with
          | E : _ = _ ++ EvMake key :: _ |- _ => inversion E; subst
          end;
          exists []; reflexivity.
Qed.

(** *** Conflicts that go away *)

(** X8: if the callback of a key meets a conflict at each of its first
    [m] attempts, with [m] below the bound, and returns at the next,
    each step going through, then the retry loop returns after exactly
    [m + 1] attempts: it opens, and closes, [m + 1] transactions and
    calls the callback [m + 1] times.  [I j] holds of the worlds in
    which [j] conflicts are still to come. *)
Theorem retry_succeeds_after_conflicts
        (I : nat -> World -> Prop) (key : Key) (m n : nat) (w : World) :
  (forall j w, I (S j) w ->
     exists w1 c w2 w3 w4,
       _start_transaction self w = (Ret tt, w1) /\
       contains self w1 key = false /\
       _make_tuples self key w1 = (Raise (TransactionError c), w2) /\
       _cancel_transaction self w2 = (Ret tt, w3) /\
       resolve self c w3 = (Ret tt, w4) /\
       I j w4) ->
  (forall w, I 0 w ->
     exists w1 w2 w3,
       _start_transaction self w = (Ret tt, w1) /\
       contains self w1 key = false /\
       _make_tuples self key w1 = (Ret tt, w2) /\
       _commit_transaction self w2 = (Ret tt, w3)) ->
  I m w ->
  m < n ->
  exists w' t,
    attempts_loop self key n w = (Ret tt, w', t) /\
    transactions_opened t = S m /\
    transactions_closed t = S m /\
    callback_calls t = S m.
Proof.
  intros Hstep Hlast. revert n w.
  induction m as [|m IH]; intros n w Hw Hn.
  - destruct n as [|n]; [lia|].
    destruct (Hlast w Hw) as (w1 & w2 & w3 & Hs & Hc & Hm & Hcm).
    pose proof (attempt_commit self key _ _ _ _ _ Hs Hc Hm Hcm) as E.
    exists w3. eexists. split; [apply attempts_loop_done; exact E|].
    repeat split.
  - destruct n as [|n]; [lia|].
    destruct (Hstep m w Hw) as (w1 & c & w2 & w3 & w4 & Hs & Hc & Hm & Hcn & Hr & Hw4).
    pose proof (attempt_cancel self key _ _ _ _ _ _ Hs Hc Hm Hcn) as E.
    cbn iota in E.
    destruct (IH n w4 Hw4 ltac:(lia)) as (w' & t & E' & Ho & Hcl & Hcalls).
    exists w'. eexists. erewrite attempts_loop_retry by eassumption.
    rewrite E'. split; [reflexivity|].
    unfold transactions_opened, transactions_closed, callback_calls in *.
    cbn. rewrite Ho, Hcl, Hcalls. repeat split.
Qed.

End Batch.

(** ** Properties of the first definition of [populate] *)

Section FirstDefinition.

Context {Key World Conflict UserExn : Type}.
Variable self : collaborators Key World Conflict UserExn.

Local Abbreviation exn := (exn Conflict UserExn).
Local Abbreviation event := (event Key Conflict).
Local Abbreviation error_record := (error_record Key Conflict UserExn).


(** The ways the body of the loop can go. *)
Inductive key_path (suppress_errors : bool) (key : Key)
          (error_list : option (list error_record)) (w : World)
  : outcome exn (option (list error_record)) -> World -> list event -> Prop :=
| KeyNoStart e w1 :
    _start_transaction self w = (Raise e, w1) ->
    key_path suppress_errors key error_list w (Raise e) w1 [EvStart]
| KeyFound w1 r w2 :
    _start_transaction self w = (Ret tt, w1) ->
    contains self w1 key = true ->
    _cancel_transaction self w1 = (r, w2) ->
    key_path suppress_errors key error_list w
             (match r with Ret _ => Ret error_list | Raise e => Raise e end)
             w2 [EvStart; EvContains key true; EvCancel]
| KeyMade w1 w2 r w3 :
    _start_transaction self w = (Ret tt, w1) ->
    contains self w1 key = false ->
    _make_tuples self key w1 = (Ret tt, w2) ->
    _commit_transaction self w2 = (r, w3) ->
    key_path suppress_errors key error_list w
             (match r with Ret _ => Ret error_list | Raise e => Raise e end)
             w3 [EvStart; EvContains key false; EvMake key; EvCommit]
| KeyThrough w1 error w2 :
    _start_transaction self w = (Ret tt, w1) ->
    contains self w1 key = false ->
    _make_tuples self key w1 = (Raise error, w2) ->
    is_Exception error = false ->
    key_path suppress_errors key error_list w (Raise error) w2
             [EvStart; EvContains key false; EvMake key]
| KeyCancelFails w1 error w2 e w3 :
    _start_transaction self w = (Ret tt, w1) ->
    contains self w1 key = false ->
    _make_tuples self key w1 = (Raise error, w2) ->
    is_Exception error = true ->
    _cancel_transaction self w2 = (Raise e, w3) ->
    key_path suppress_errors key error_list w (Raise e) w3
             [EvStart; EvContains key false; EvMake key; EvCancel]
| KeyFailed w1 error w2 w3 :
    suppress_errors = false ->
    _start_transaction self w = (Ret tt, w1) ->
    contains self w1 key = false ->
    _make_tuples self key w1 = (Raise error, w2) ->
    is_Exception error = true ->
    _cancel_transaction self w2 = (Ret tt, w3) ->
    key_path suppress_errors key error_list w (Raise error) w3
             [EvStart; EvContains key false; EvMake key; EvCancel]
| KeyRecorded w1 error w2 w3 :
    suppress_errors = true ->
    _start_transaction self w = (Ret tt, w1) ->
    contains self w1 key = false ->
    _make_tuples self key w1 = (Raise error, w2) ->
    is_Exception error = true ->
    _cancel_transaction self w2 = (Ret tt, w3) ->
    print self error w3 = Ret tt ->
    key_path suppress_errors key error_list w
             (match error_list with
              | Some l => Ret (Some (l ++ [(key, error)]))
              | None => Raise AttributeError
              end)
             w3 [EvStart; EvContains key false; EvMake key; EvCancel; EvPrint]
| KeyPrintFails w1 error w2 w3 e :
    suppress_errors = true ->
    _start_transaction self w = (Ret tt, w1) ->
    contains self w1 key = false ->
    _make_tuples self key w1 = (Raise error, w2) ->
    is_Exception error = true ->
    _cancel_transaction self w2 = (Ret tt, w3) ->
    print self error w3 = Raise e ->
    key_path suppress_errors key error_list w (Raise e) w3
             [EvStart; EvContains key false; EvMake key; EvCancel; EvPrint].

Lemma populate_key_paths (suppress_errors : bool) (key : Key)
      (error_list : option (list error_record)) (w : World) :
  exists r w' t,
    Shadowed.populate_key self suppress_errors key error_list w = (r, w', t) /\
    key_path suppress_errors key error_list w r w' t.
Proof.
  unfold Shadowed.populate_key, key_in_target, print_error, bind, try_except,
    call, ret, raise.
  destruct (_start_transaction self w) as [[[]|e] w1] eqn:Hs.
  - destruct (contains self w1 key) eqn:Hc.
    + destruct (_cancel_transaction self w1) as [r w2] eqn:Hcn.
      do 3 eexists. split; [|eapply KeyFound; eassumption].
      destruct r as [[]|e]; reflexivity.
    + destruct (_make_tuples self key w1) as [[[]|error] w2] eqn:Hm.
      * destruct (_commit_transaction self w2) as [r w3] eqn:Hcm.
        do 3 eexists. split; [|eapply KeyMade; eassumption].
        destruct r as [[]|e]; reflexivity.
      * destruct (is_Exception error) eqn:He; cbn [negb].
        -- destruct (_cancel_transaction self w2) as [[[]|e] w3] eqn:Hcn.
           ++ destruct suppress_errors eqn:Hsup; cbn [negb].
              ** destruct (print self error w3) as [[]|e] eqn:Hp.
                 --- do 3 eexists. split; [|eapply KeyRecorded; first [eassumption|reflexivity]].
                     destruct error_list; reflexivity.
                 --- do 3 eexists. split; [|eapply KeyPrintFails; first [eassumption|reflexivity]].
                     reflexivity.
              ** do 3 eexists. split; [|eapply KeyFailed; first [eassumption|reflexivity]].
                 reflexivity.
           ++ do 3 eexists. split; [|eapply KeyCancelFails; eassumption].
              reflexivity.
        -- do 3 eexists. split; [|eapply KeyThrough; eassumption]. reflexivity.
  - do 3 eexists. split; [|eapply KeyNoStart; eassumption]. reflexivity.
Qed.

Lemma populate_key_inv (suppress_errors : bool) (key : Key)
      (error_list : option (list error_record)) (w w' : World)
      (r : outcome exn (option (list error_record))) (t : list event) :
  Shadowed.populate_key self suppress_errors key error_list w = (r, w', t) ->
  key_path suppress_errors key error_list w r w' t.
Proof.
  intros H.
  destruct (populate_key_paths suppress_errors key error_list w)
    as (r0 & w0 & t0 & E & P).
  rewrite E in H. inversion H; subst. exact P.
Qed.

Lemma shadowed_for_keys_cons_inv (suppress_errors : bool) (key : Key)
      (rest : list Key) (error_list : option (list error_record))
      (w w' : World) (r : outcome exn (option (list error_record)))
      (t : list event) :
  Shadowed.for_keys self suppress_errors (key :: rest) error_list w = (r, w', t) ->
  exists r1 w1 t1,
    Shadowed.populate_key self suppress_errors key error_list w = (r1, w1, t1) /\
    ((exists e, r1 = Raise e /\ r = Raise e /\ w' = w1 /\ t = t1) \/
     (exists el t2,
         r1 = Ret el /\
         Shadowed.for_keys self suppress_errors rest el w1 = (r, w', t2) /\
         t = t1 ++ t2)).
Proof.
  intros H.
  change (Shadowed.for_keys self suppress_errors (key :: rest) error_list w)
    with (bind (Shadowed.populate_key self suppress_errors key error_list)
               (fun el => Shadowed.for_keys self suppress_errors rest el) w) in H.
  unfold bind in H.
  destruct (Shadowed.populate_key self suppress_errors key error_list w)
    as [[r1 w1] t1].
  exists r1, w1, t1. split; [reflexivity|].
  destruct r1 as [el|e].
  - destruct (Shadowed.for_keys self suppress_errors rest el w1)
      as [[r2 w2] t2] eqn:E2.
    inversion H; subst. right. exists el, t2.
    split; [reflexivity|]. split; [exact E2|reflexivity].
  - inversion H; subst. left. exists e. repeat split.
Qed.

(** The body of the loop is one attempt: it opens one transaction,
    calls no resolution action, and has closed the transaction once
    when it returns. *)
Lemma populate_key_round (suppress_errors : bool) (key : Key)
      (error_list : option (list error_record)) (w w' : World)
      (r : outcome exn (option (list error_record))) (t : list event) :
  Shadowed.populate_key self suppress_errors key error_list w = (r, w', t) ->
  round_of key t /\
  (forall c, ~ In (EvResolve c) t) /\
  (forall el, r = Ret el -> transactions_closed t = 1).
Proof.
  intros H. apply populate_key_inv in H.
  inversion H; subst;
    (split; [eexists; split; [reflexivity|];
             cbn; (split; [reflexivity|]); (split; [lia|]); (split; [lia|]);
             intros ev k Hin Hev; cbn in Hin;
             repeat (destruct Hin as [<-|Hin]; [cbn in Hev; congruence|]);
             destruct Hin|]);
    (split; [intros c Hin; cbn in Hin; intuition discriminate|]);
    intros el Hel; first [discriminate|reflexivity].
Qed.

Lemma shadowed_for_keys_rounds (suppress_errors : bool) (keys : list Key) :
  forall error_list w r w' t,
    Shadowed.for_keys self suppress_errors keys error_list w = (r, w', t) ->
    exists rounds : list (Key * list event),
      t = List.concat (map snd rounds) /\
      (exists rest,
          keys = map fst rounds ++ rest /\
          (forall res, r = Ret res -> rest = [])) /\
      Forall (fun kr =>
                round_of (fst kr) (snd kr) /\
                forall c, ~ In (EvResolve c) (snd kr))
             rounds /\
      (forall res,
          r = Ret res ->
          Forall (fun kr => transactions_closed (snd kr) = 1) rounds).
Proof.
  induction keys as [|key rest IH]; intros el w r w' t H.
  - inversion H; subst. exists []. split; [reflexivity|].
    split; [exists []; split; [reflexivity|intros; reflexivity]|].
    split; [constructor|]. intros res _. constructor.
  - apply shadowed_for_keys_cons_inv in H.
    destruct H as (r1 & w1 & t1 & E & H). apply populate_key_round in E.
    destruct E as (Hround & Hres & Hclosed).
    destruct H as [(e & -> & -> & -> & ->)|(el1 & t2 & -> & E2 & ->)].
    + exists [(key, t1)]. cbn. rewrite app_nil_r. split; [reflexivity|].
      split; [exists rest; split; [reflexivity|intros res Hr; discriminate]|].
      split; [constructor; [split; assumption|constructor]|].
      intros res Hr; discriminate.
    + destruct (IH _ _ _ _ _ E2) as (rounds & -> & (rest' & -> & Hall) & Hok & Hcl).
      exists ((key, t1) :: rounds). split; [reflexivity|].
      split; [exists rest'; split; [reflexivity|exact Hall]|].
      split; [constructor; [split; assumption|exact Hok]|].
      intros res Hr. constructor; [cbn; eapply Hclosed; reflexivity|].
      eapply Hcl. exact Hr.
Qed.

(** X9: the first definition does not retry.  Once the opening
    rollback has returned, its run, whatever the outcome, is that
    rollback and the read of the work list, which comes after it,
    followed by one attempt for each key of a beginning of the work
    list, in order.  Each attempt opens exactly one transaction, calls
    the callback at most once and commits or cancels at most once,
    every check and call in it being for its key; no resolution action
    is called.  When the run returns, there is an attempt for every
    key of the work list and each has closed its transaction once. *)
Theorem first_definition_never_retries
        (fetch : World -> list Key) (restriction : option (Key -> bool))
        (suppress_errors : bool) (w w0 w' : World)
        (r : outcome exn (option (list error_record))) (t : list event) :
  populate_relation self = RelationalOperand fetch ->
  _cancel_transaction self w = (Ret tt, w0) ->
  Shadowed.populate self restriction suppress_errors false w = (r, w', t) ->
  exists rounds : list (Key * list event),
    t = EvCancel :: EvFetch :: List.concat (map snd rounds) /\
    (exists rest,
        unpopulated self fetch restriction w0 = map fst rounds ++ rest /\
        (forall res, r = Ret res -> rest = [])) /\
    Forall (fun kr =>
              round_of (fst kr) (snd kr) /\
              forall c, ~ In (EvResolve c) (snd kr))
           rounds /\
    (forall res,
        r = Ret res ->
        Forall (fun kr => transactions_closed (snd kr) = 1) rounds).
Proof.
  intros Hpr Hcn H. unfold Shadowed.populate in H.
  rewrite Hpr in H. unfold bind, call, project in H. rewrite Hcn in H.
  destruct (Shadowed.for_keys self suppress_errors
              (unpopulated self fetch restriction w0)
              (if suppress_errors then Some [] else None) w0)
    as [[r2 w2] t2] eqn:E.
  inversion H; subst.
  destruct (shadowed_for_keys_rounds _ _ _ _ _ _ _ E)
    as (rounds & -> & Hpre & Hok & Hcl).
  exists rounds. split; [reflexivity|]. split; [exact Hpre|].
  split; assumption.
Qed.

Lemma shadowed_for_keys_raises (keys : list Key) :
  forall (l : list error_record) (w w' : World) (e : exn) (t : list event),
    Shadowed.for_keys self true keys (Some l) w = (Raise e, w', t) ->
    exists t0 w0,
      (t = t0 ++ [EvStart] /\ _start_transaction self w0 = (Raise e, w')) \/
      (t = t0 ++ [EvCommit] /\ _commit_transaction self w0 = (Raise e, w')) \/
      (t = t0 ++ [EvCancel] /\ _cancel_transaction self w0 = (Raise e, w')) \/
      (exists e0, t = t0 ++ [EvPrint] /\ print self e0 w' = Raise e) \/
      (exists key,
          t = t0 ++ [EvMake key] /\
          _make_tuples self key w0 = (Raise e, w') /\
          is_Exception e = false).
Proof.
  induction keys as [|key rest IH]; intros l w w' e t H.
  - discriminate.
  - apply shadowed_for_keys_cons_inv in H.
    destruct H as (r1 & w1 & t1 & E & H). apply populate_key_inv in E.
    destruct H as [(e0 & -> & He & -> & ->)|(el1 & t2 & -> & E2 & ->)].
    + inversion He; subst e0. clear He.
      inversion E; subst; cbn in *; try discriminate.
      * exists [], w. left. split; [reflexivity|assumption].
      * destruct r as [[]|e1]; [discriminate|].
        match goal with
        | E0 : Raise _ = Raise _ |- _ => inversion E0; subst
        end.
        exists [EvStart; EvContains key true]. eexists.
        right. right. left. split; [reflexivity|eassumption].
      * destruct r as [[]|e1]; [discriminate|].
        match goal with
        | E0 : Raise _ = Raise _ |- _ => inversion E0; subst
        end.
        exists [EvStart; EvContains key false; EvMake key]. eexists.
        right. left. split; [reflexivity|eassumption].
      * exists [EvStart; EvContains key false]. eexists.
        right. right. right. right. exists key.
        split; [reflexivity|]. split; eassumption.
      * exists [EvStart; EvContains key false; EvMake key]. eexists.
        right. right. left. split; [reflexivity|eassumption].
      * exists [EvStart; EvContains key false; EvMake key; EvCancel], w1.
        right. right. right. left. eexists. split; [reflexivity|eassumption].
    + assert (Hsome : exists l1, el1 = Some l1).
      { inversion E; subst;
          try match goal with
              | E0 : match ?r with Ret _ => _ | Raise _ => _ end = Ret _ |- _ =>
                  destruct r; [|discriminate]
              end;
          try match goal with
              | E0 : Ret _ = Ret _ |- _ => inversion E0; subst
              end;
          try discriminate; eauto. }
      destruct Hsome as [l1 ->].
      destruct (IH _ _ _ _ _ E2) as (t0 & w0 & Hcases).
      exists (t1 ++ t0), w0.
      destruct Hcases as [[-> Hx]|[[-> Hx]|[[-> Hx]|[(e0 & -> & Hx)|
                          (k & -> & Hx)]]]]; rewrite app_assoc.
      * left. split; [reflexivity|exact Hx].
      * right. left. split; [reflexivity|exact Hx].
      * right. right. left. split; [reflexivity|exact Hx].
      * right. right. right. left. exists e0. split; [reflexivity|exact Hx].
      * right. right. right. right. exists k. split; [reflexivity|exact Hx].
Qed.

(** X10: with suppression, the first definition never lets an
    instance of [Exception] raised by the callback out.  When its call
    raises after the guards, the last call of the run is the one that
    raised, and left the world as it is: one of the three steps of a
    transaction (opening, commit, cancellation), which are outside the
    [try] block, or [print(error)], or the callback raising something
    that is not an instance of [Exception]. *)
Theorem first_definition_keeps_callback_errors
        (fetch : World -> list Key) (restriction : option (Key -> bool))
        (w w' : World) (e : exn) (t : list event) :
  populate_relation self = RelationalOperand fetch ->
  Shadowed.populate self restriction true false w = (Raise e, w', t) ->
  exists t0 w0,
    (t = t0 ++ [EvStart] /\ _start_transaction self w0 = (Raise e, w')) \/
    (t = t0 ++ [EvCommit] /\ _commit_transaction self w0 = (Raise e, w')) \/
    (t = t0 ++ [EvCancel] /\ _cancel_transaction self w0 = (Raise e, w')) \/
    (exists e0, t = t0 ++ [EvPrint] /\ print self e0 w' = Raise e) \/
    (exists key,
        t = t0 ++ [EvMake key] /\
        _make_tuples self key w0 = (Raise e, w') /\
        is_Exception e = false).
Proof.
  intros Hpr H. unfold Shadowed.populate in H. rewrite Hpr in H.
  unfold bind, call, project in H.
  destruct (_cancel_transaction self w) as [[[]|e0] w0] eqn:Hcn.
  - destruct (Shadowed.for_keys self true (unpopulated self fetch restriction w0)
                (Some []) w0) as [[r2 w2] t2] eqn:E.
    inversion H; subst.
    destruct (shadowed_for_keys_raises _ _ _ _ _ _ E) as (t0 & w1 & Hcases).
    exists (EvCancel :: EvFetch :: t0), w1.
    destruct Hcases as [[-> Hx]|[[-> Hx]|[[-> Hx]|[(e1 & -> & Hx)|
                        (k & -> & Hx)]]]].
    + left. split; [reflexivity|exact Hx].
    + right. left. split; [reflexivity|exact Hx].
    + right. right. left. split; [reflexivity|exact Hx].
    + right. right. right. left. exists e1. split; [reflexivity|exact Hx].
    + right. right. right. right. exists k. split; [reflexivity|exact Hx].
  - inversion H; subst. exists [], w. right. right. left.
    split; [reflexivity|exact Hcn].
Qed.






End FirstDefinition.

(** ** Runs of the concrete stage, continued *)

(** The stage with a connection that fails at each commit. *)
Definition offline_stage (relation : pyvalue nat Stage.world)
  : collaborators nat Stage.world string string :=
  {| is_Relation := true;
     class_repr := "<class 'Stage'>";
     populate_relation := relation;
     contains := Stage.has;
     _make_tuples := Stage.make Stage.plan;
     _start_transaction := Stage.start;
     _commit_transaction :=
       fun w => (Raise (UserError "OperationalError"%string), w);
     _cancel_transaction := Stage.cancel;
     resolve := Stage.settle;
     print := fun _ _ => Ret tt |}.

Definition run_123 : list (event nat string) :=
  [EvFetch;
   EvStart; EvContains 1 false; EvMake 1; EvCommit;
   EvStart; EvContains 2 false; EvMake 2; EvCancel; EvPrint;
   EvStart; EvContains 3 false; EvMake 3; EvCommit].

Definition world_31 : Stage.world :=
  {| Stage.rows := [3; 1]; Stage.opened := None; Stage.contention := 0 |}.

Lemma suppressing_run_123 :
  populate (run_stage (Stage.eligible [1; 2; 3]) true) None true false
           Stage.empty =
    (Ret (Some [(2, Stage.value_error)]), world_31, run_123).
Proof. reflexivity. Qed.

Lemma populate_attempts_bounded_witness :
  exists segments : list (segment nat string),
    run_123 = EvFetch :: List.concat (map segment_trace segments) /\
    (exists rest, [1; 2; 3] = map seg_key segments ++ rest) /\
    Forall (fun seg =>
              List.length (seg_rounds seg) <= max_attempts /\
              Forall (round_of (seg_key seg)) (seg_rounds seg))
           segments.
Proof.
  exact (populate_attempts_bounded
           (run_stage (Stage.eligible [1; 2; 3]) true) (fun _ => [1; 2; 3])
           None true Stage.empty world_31 _ run_123
           eq_refl eq_refl suppressing_run_123).
Defined.

Lemma populate_strict_return_populates_witness :
  Stage.has world_31 1 = true /\ Stage.has world_31 3 = true.
Proof.
  assert (H : forall key, In key [1; 3] -> Stage.has world_31 key = true).
  { apply (populate_strict_return_populates
             (tidy_stage (Stage.eligible [1; 3]) true) (fun _ => [1; 3]) None
             Stage.empty world_31 None
             [EvFetch;
              EvStart; EvContains 1 false; EvMake 1; EvCommit;
              EvStart; EvContains 3 false; EvMake 3; EvCommit]).
    - reflexivity.
    - apply stage_callback_inserts, tidy_plan_never_silent.
    - apply stage_commit_keeps.
    - apply stage_target_grows.
    - reflexivity. }
  split; apply H; cbn; auto.
Defined.

Lemma populate_touches_work_list_only_witness :
  In 2 [1; 2; 3] /\ Stage.has Stage.empty 2 = false /\ True.
Proof.
  apply (populate_touches_work_list_only
           (run_stage (Stage.eligible [1; 2; 3]) true) (fun _ => [1; 2; 3])
           None true false Stage.empty world_31 _ run_123
           eq_refl suppressing_run_123 (EvMake 2) 2).
  - cbn. auto 10.
  - reflexivity.
Defined.

Lemma populate_calls_callback_after_check_witness :
  exists t0,
    [@EvFetch nat string; EvStart; EvContains 1 false; EvMake 1; EvCommit;
     EvStart; EvContains 2 false] = t0 ++ [EvStart; EvContains 2 false].
Proof.
  apply (populate_calls_callback_after_check
           (run_stage (Stage.eligible [1; 2; 3]) true)
           None true false Stage.empty world_31 _ run_123
           suppressing_run_123 2 _
           [EvCancel; EvPrint; EvStart; EvContains 3 false; EvMake 3; EvCommit]).
  reflexivity.
Defined.


Lemma populate_first_record_is_strict_error_witness :
  exists w1 t1 t2,
    populate (run_stage (Stage.eligible [1; 2; 3]) true) None false false
             Stage.empty = (Raise Stage.value_error, w1, t1) /\
    run_123 = t1 ++ t2.
Proof.
  exact (populate_first_record_is_strict_error
           (run_stage (Stage.eligible [1; 2; 3]) true)
           None Stage.empty world_31 run_123 2 Stage.value_error []
           suppressing_run_123).
Defined.

(** Key 6 meets as many conflicts as the storage counts. *)
Definition conflicts_to_come (j : nat) (w : Stage.world) : Prop :=
  Stage.contention w = j /\ Stage.has w 6 = false.

Lemma retry_succeeds_after_conflicts_witness :
  exists w' t,
    attempts_loop (run_stage (Stage.eligible [6]) true) 6 max_attempts
                  {| Stage.rows := []; Stage.opened := None;
                     Stage.contention := 3 |} = (Ret tt, w', t) /\
    transactions_opened t = 4 /\
    transactions_closed t = 4 /\
    callback_calls t = 4.
Proof.
  apply (retry_succeeds_after_conflicts
           (run_stage (Stage.eligible [6]) true) conflicts_to_come 6 3).
  - intros j w [Hj Hh].
    exists (snd (Stage.start w)), "insert"%string, (snd (Stage.start w)),
           (snd (Stage.cancel (snd (Stage.start w)))),
           (snd (Stage.settle "insert" (snd (Stage.cancel (snd (Stage.start w)))))).
    unfold conflicts_to_come.
    repeat split; cbn; unfold Stage.make; cbn; rewrite ?Hj;
      first [reflexivity|exact Hh].
  - intros w [Hj Hh].
    exists (snd (Stage.start w)), (Stage.insert 6 (snd (Stage.start w))),
           (snd (Stage.commit (Stage.insert 6 (snd (Stage.start w))))).
    repeat split; cbn; unfold Stage.make; cbn; rewrite ?Hj;
      first [reflexivity|exact Hh].
  - split; reflexivity.
  - unfold max_attempts. lia.
Defined.

Lemma first_definition_never_retries_witness :
  exists rounds : list (nat * list (event nat string)),
    EvCancel :: run_123 =
      EvCancel :: EvFetch :: List.concat (map snd rounds) /\
    (exists rest,
        [1; 2; 3] = map fst rounds ++ rest /\
        (forall res,
            @Ret Stage.error _ (Some [(2, Stage.value_error)]) = Ret res ->
            rest = [])) /\
    Forall (fun kr =>
              round_of (fst kr) (snd kr) /\
              forall c, ~ In (EvResolve c) (snd kr))
           rounds /\
    (forall res,
        @Ret Stage.error _ (Some [(2, Stage.value_error)]) = Ret res ->
        Forall (fun kr => transactions_closed (snd kr) = 1) rounds).
Proof.
  apply (first_definition_never_retries
           (run_stage (Stage.eligible [1; 2; 3]) true) (fun _ => [1; 2; 3])
           None true Stage.empty Stage.empty world_31);
    reflexivity.
Defined.

Definition operational_error : Stage.error := UserError "OperationalError"%string.

(** With the failing connection the first definition raises under
    suppression, where the second records the error and returns. *)
Lemma offline_runs :
  Shadowed.populate (offline_stage (Stage.eligible [1])) None true false
                    Stage.empty =
    (Raise operational_error,
     {| Stage.rows := []; Stage.opened := Some [1]; Stage.contention := 0 |},
     [EvCancel; EvFetch; EvStart; EvContains 1 false; EvMake 1; EvCommit]) /\
  populate (offline_stage (Stage.eligible [1])) None true false Stage.empty =
    (Ret (Some [(1, operational_error)]),
     {| Stage.rows := []; Stage.opened := Some [1]; Stage.contention := 0 |},
     [EvFetch; EvStart; EvContains 1 false; EvMake 1; EvCommit; EvPrint]).
Proof. split; reflexivity. Qed.

Definition offline_trace : list (event nat string) :=
  [EvCancel; EvFetch; EvStart; EvContains 1 false; EvMake 1; EvCommit].

Lemma first_definition_keeps_callback_errors_witness :
  let self := offline_stage (Stage.eligible [1]) in
  let w' := {| Stage.rows := []; Stage.opened := Some [1];
               Stage.contention := 0 |} in
  exists t0 w0,
    (offline_trace =
       t0 ++ [EvStart] /\
     _start_transaction self w0 = (Raise operational_error, w')) \/
    (offline_trace =
       t0 ++ [EvCommit] /\
     _commit_transaction self w0 = (Raise operational_error, w')) \/
    (offline_trace =
       t0 ++ [EvCancel] /\
     _cancel_transaction self w0 = (Raise operational_error, w')) \/
    (exists e0,
        offline_trace =
          t0 ++ [EvPrint] /\
        print self e0 w' = Raise operational_error) \/
    (exists key,
        offline_trace =
          t0 ++ [EvMake key] /\
        _make_tuples self key w0 = (Raise operational_error, w') /\
        is_Exception operational_error = false).
Proof.
  cbv zeta.
  exact (first_definition_keeps_callback_errors
           (offline_stage (Stage.eligible [1])) (fun _ => [1]) None
           Stage.empty _ operational_error _ eq_refl (proj1 offline_runs)).
Defined.



Lemma populate_modes_agree_without_failure_witness :
  populate (tidy_stage (Stage.eligible [1; 3]) true) None true false
           Stage.empty =
    (Ret (Some []), world_31,
     [EvFetch;
      EvStart; EvContains 1 false; EvMake 1; EvCommit;
      EvStart; EvContains 3 false; EvMake 3; EvCommit]).
Proof.
  apply (proj1 (populate_modes_agree_without_failure
                  (tidy_stage (Stage.eligible [1; 3]) true) None
                  Stage.empty world_31 _)).
  reflexivity.
Defined.
